(** * Push-sync protocol of the bee node (package [pushsync])

    A shallow embedding of [pushsync.go]: the delivery [handler], the
    [chunksWorker] loop, the point-to-point transfer
    [sendChunkAndReceiveReceipt] and [Close], followed by the properties
    the specification states about them.

    The package talks to four collaborators that are Go interfaces
    (streamer, storer, closest-peer suggester, logger) and to a metrics
    registry.  A call on a collaborator is modelled as an [Event] appended
    to a trace, and what the collaborator answers is an input of the
    function that makes the call, so that every behaviour of the
    collaborators is covered by some input. *)

From Stdlib Require Import ZArith List String Ascii Lia.
From Stdlib.Strings Require Import Byte.
From stdpp Require Import base gmap strings.
Import ListNotations.

Local Open Scope Z_scope.
Local Open Scope string_scope.
Local Open Scope list_scope.

(** ** Data *)

Definition bytes : Type := list Byte.byte.

(** [swarm.Address] wraps a byte slice; its zero value holds no bytes. *)
Record Address : Type := NewAddress { Bytes : bytes }.

Definition ZeroAddress : Address := NewAddress [].

(** [swarm.Chunk]: an address and a payload. *)
Record Chunk : Type := NewChunk { Chunk_Address : Address; Chunk_Data : bytes }.

(** Wire records of package [pb]. *)
Record Delivery : Type := mkDelivery { Delivery_Address : bytes; Delivery_Data : bytes }.
Record Receipt : Type := mkReceipt { Receipt_Address : bytes }.

#[global] Instance byte_eq_dec : EqDecision Byte.byte := Strings.Byte.byte_eq_dec.
#[global] Instance Address_eq_dec : EqDecision Address.
Proof. intros a b. unfold Decision. decide equality. apply (list_eq_dec _). Defined.
#[global] Instance Chunk_eq_dec : EqDecision Chunk.
Proof.
  intros a b. unfold Decision. decide equality.
  - apply (list_eq_dec _).
  - apply Address_eq_dec.
Defined.
#[global] Instance Delivery_eq_dec : EqDecision Delivery.
Proof. intros a b. unfold Decision. decide equality; apply (list_eq_dec _). Defined.
#[global] Instance Receipt_eq_dec : EqDecision Receipt.
Proof. intros a b. unfold Decision. decide equality. apply (list_eq_dec _). Defined.

(** [Address.String()] is the lower-case hexadecimal rendering of the
    bytes; the retry map is keyed by it. *)
Definition hex_digit (n : N) : ascii :=
  match n with
  | 0 => "0" | 1 => "1" | 2 => "2" | 3 => "3" | 4 => "4" | 5 => "5"
  | 6 => "6" | 7 => "7" | 8 => "8" | 9 => "9" | 10 => "a" | 11 => "b"
  | 12 => "c" | 13 => "d" | 14 => "e" | _ => "f"
  end%N%char.

Fixpoint hex_EncodeToString (bs : bytes) : string :=
  match bs with
  | [] => EmptyString
  | b :: rest =>
      let n := Byte.to_N b in
      String (hex_digit (n / 16)) (String (hex_digit (n mod 16)) (hex_EncodeToString rest))
  end.

Definition Address_String (a : Address) : string := hex_EncodeToString (Bytes a).

(** Go's [int] on a 64-bit platform: arithmetic wraps around. *)
Definition int_wrap (z : Z) : Z := (z + 2 ^ 63) mod 2 ^ 64 - 2 ^ 63.

(** ** Errors

    A Go [error] value that may be [nil] is an [option error]. *)
Inductive error : Type :=
| io_EOF
| topology_ErrWantSelf
| protobuf_ErrTimeout
| ErrMaxRetriesExhausted            (* fmt.Errorf("max retries exhausted ", ...) *)
| ErrWrap (msg : string) (e : error) (* fmt.Errorf(msg + "%w", e) *)
| ErrOther (msg : string).

#[global] Instance error_eq_dec : EqDecision error.
Proof. intros a b. unfold Decision. decide equality; apply string_dec. Defined.

(** [errors.Is] follows the chain of wrapped errors. *)
Fixpoint errors_Is (err target : error) : bool :=
  if decide (err = target) then true
  else match err with
       | ErrWrap _ e => errors_Is e target
       | _ => false
       end.

Inductive result (A : Type) : Type :=
| Ok (a : A)
| Err (e : error).
Arguments Ok {A} a.
Arguments Err {A} e.

(** ** Package constants and variables *)

Definition protocolName : string := "pushsync".
Definition protocolVersion : string := "1.0.0".
Definition streamName : string := "pushsync".

(** Durations are in nanoseconds, as [time.Duration] is. *)
Definition Millisecond : Z := 1000000.
Definition Second : Z := 1000 * Millisecond.

Definition retryInterval : Z := 10 * Second.
Definition timeToWaitForReceipt : Z := 2 * Second.
Definition MaxRetries : Z := 3.

(** ** The instance and the outside world *)

(** A Go channel that carries no values, as [quit] is used. *)
Inductive chan : Type := chan_nil | chan_open | chan_closed.

#[global] Instance chan_eq_dec : EqDecision chan.
Proof. intros a b. unfold Decision. decide equality. Defined.

(** The fields of [PushSync] that are state of the package itself; the
    collaborators appear through the events below.  The mutex
    [retryChunksMu] guards [retryChunks]; one invocation is modelled at a
    time, so that locking and unlocking leave no mark. *)
Record PushSync : Type := mkPushSync {
  retryChunks : gmap string Z;
  quit : chan
}.

Inductive Options : Type := mkOptions.

Inductive ModePut : Type := ModePutSync | ModePutUpload.
Inductive ModeSet : Type := ModeSetSyncPush.

(** The counters and timers of the [metrics] struct that the file uses. *)
Inductive Metric : Type :=
| ReceivedChunkErrorCounter | ChunksSentCounter | SendReceiptErrorCounter
| ReceiptsSentCounter | ErrorSettingChunkToSynced | TotalChunksSynced
| TotalChunksToBeSentCounter | MarkAndSweepTimer | RetriesExhaustedCounter
| SendChunkErrorCounter | SendChunkTimer | ReceiveReceiptErrorCounter
| ReceiptRTT | ReceiptsReceivedCounter.

(** The two kinds of stream a function holds: the one it was handed by the
    transport ([Inbound]) and the one it opened to a peer. *)
Inductive StreamId : Type := Inbound | Outbound (peer : Address).

Inductive Event : Type :=
| EvReadDelivery                                   (* r.ReadMsg(&ch) in handler *)
| EvPut (mode : ModePut) (c : Chunk)                (* storer.Put *)
| EvWriteReceipt (r : Receipt)                      (* w.WriteMsg(receipt) *)
| EvClosestPeer (a : Address)                       (* peerSuggester.ClosestPeer *)
| EvSet (mode : ModeSet) (a : Address)              (* storer.Set *)
| EvNewStream (peer : Address) (proto ver name : string)
| EvWriteDelivery (deadline : Z) (peer : Address) (d : Delivery)
                                                    (* w.WriteMsgWithTimeout *)
| EvReadReceipt (peer : Address)                    (* r.ReadMsg(&receipt) *)
| EvStreamClose (s : StreamId)
| EvLog (msg : string)
| EvInc (m : Metric)
| EvAdd (m : Metric) (v : Z)
| EvSubscribePush
| EvUnsubscribe
| EvNewTimer (d : Z)
| EvTimerReset (d : Z)
| EvTimerStop.

#[global] Instance ModePut_eq_dec : EqDecision ModePut.
Proof. intros a b. unfold Decision. decide equality. Defined.
#[global] Instance ModeSet_eq_dec : EqDecision ModeSet.
Proof. intros a b. unfold Decision. decide equality. Defined.
#[global] Instance Metric_eq_dec : EqDecision Metric.
Proof. intros a b. unfold Decision. decide equality. Defined.
#[global] Instance StreamId_eq_dec : EqDecision StreamId.
Proof. intros a b. unfold Decision. decide equality. apply Address_eq_dec. Defined.
#[global] Instance Event_eq_dec : EqDecision Event.
Proof.
  intros a b. unfold Decision.
  decide equality;
    first [ apply string_dec | apply Z.eq_dec | apply Address_eq_dec
          | apply Chunk_eq_dec | apply Delivery_eq_dec | apply Receipt_eq_dec
          | apply ModePut_eq_dec | apply ModeSet_eq_dec | apply Metric_eq_dec
          | apply StreamId_eq_dec ].
Defined.

(** The state a function runs in: the instance, the calls made on the
    collaborators so far (oldest first) and the wall clock. *)
Record St : Type := mkSt {
  ps : PushSync;
  trace : list Event;
  now : Z
}.

(** ** A state monad with early return

    [M R A] is a piece of a Go function body whose enclosing function
    returns an [R]: it either falls through with an [A] or executes a
    [return]. *)
Inductive Flow (R A : Type) : Type :=
| Returned (r : R)
| Value (a : A).
Arguments Returned {R A} r.
Arguments Value {R A} a.

Definition M (R A : Type) : Type := St -> Flow R A * St.

Definition ret {R A} (a : A) : M R A := fun s => (Value a, s).
Definition Return {R A} (r : R) : M R A := fun s => (Returned r, s).
Definition bind {R A B} (m : M R A) (k : A -> M R B) : M R B :=
  fun s => match m s with
           | (Returned r, s') => (Returned r, s')
           | (Value a, s') => k a s'
           end.

Declare Scope go_scope.
Delimit Scope go_scope with go.
Notation "x <- m ;; k" := (bind m (fun x => k))
  (at level 100, m at next level, right associativity) : go_scope.
Notation "m ;; k" := (bind m (fun _ => k))
  (at level 100, right associativity) : go_scope.

(** A whole function body: falling off the end and [return] coincide. *)
Definition func {R} (body : M R R) : St -> R * St :=
  fun s => match body s with
           | (Returned r, s') => (r, s')
           | (Value r, s') => (r, s')
           end.

(** [defer d rest]: [rest] is everything after the [defer] statement up to
    the end of the function; [d] runs when the function returns. *)
Definition defer {R A} (d : St -> St) (rest : M R A) : M R A :=
  fun s => let '(f, s') := rest s in (f, d s').

(** Calling a function of the package from a body. *)
Definition call {R A} (f : St -> A * St) : M R A :=
  fun s => let '(a, s') := f s in (Value a, s').

Definition record (e : Event) (s : St) : St :=
  mkSt (ps s) (trace s ++ [e]) (now s).
Definition emit {R} (e : Event) : M R unit := fun s => (Value tt, record e s).

(** A blocking call lets [d] nanoseconds pass. *)
Definition elapse {R} (d : Z) : M R unit :=
  fun s => (Value tt, mkSt (ps s) (trace s) (now s + d)).

Definition time_Now {R} : M R Z := fun s => (Value (now s), s).
Definition time_Since {R} (t : Z) : M R Z := fun s => (Value (now s - t), s).

(** [Add] is given [float64(time.Since(t))]; the number of nanoseconds is
    kept as the integer it is. *)
Definition Inc {R} (m : Metric) : M R unit := emit (EvInc m).
Definition Add {R} (m : Metric) (v : Z) : M R unit := emit (EvAdd m v).
Definition logger_Error {R} (msg : string) : M R unit := emit (EvLog msg).
Definition logger_Errorf {R} (msg : string) : M R unit := emit (EvLog msg).

Definition retryChunks_lookup {R} (key : string) : M R (option Z) :=
  fun s => (Value (retryChunks (ps s) !! key), s).
Definition retryChunks_store {R} (key : string) (v : Z) : M R unit :=
  fun s => (Value tt,
            mkSt (mkPushSync (<[key := v]> (retryChunks (ps s))) (quit (ps s)))
                 (trace s) (now s)).
Definition retryChunks_delete {R} (key : string) : M R unit :=
  fun s => (Value tt,
            mkSt (mkPushSync (delete key (retryChunks (ps s))) (quit (ps s)))
                 (trace s) (now s)).

(** ** The collaborators

    Each record holds what the collaborators answer to the calls of one
    invocation; a blocking stream operation also says how long it took. *)

(** The outbound stream of one point-to-point transfer. *)
Record SendEnv : Type := mkSendEnv {
  newStream_err : option error;      (* streamer.NewStream *)
  newStream_took : Z;
  write_err : option error;          (* what the write itself ends in ... *)
  write_took : Z;                    (* ... after this long *)
  read_res : result Receipt;         (* r.ReadMsg(&receipt) *)
  read_took : Z
}.

(** The collaborators of one [handler] invocation. *)
Record HandlerEnv : Type := mkHandlerEnv {
  h_read : result Delivery;          (* r.ReadMsg(&ch) *)
  h_put : option error;              (* storer.Put *)
  h_write : option error;            (* w.WriteMsg(receipt) *)
  h_closest : Address * option error;(* peerSuggester.ClosestPeer *)
  h_set : option error               (* storer.Set *)
}.

(** The collaborators while the worker treats one chunk. *)
Record ChunkEnv : Type := mkChunkEnv {
  c_closest : Address * option error;
  c_set : option error;
  c_send : SendEnv
}.

Definition streamer_NewStream {R} (env : SendEnv) (peer : Address)
    (proto ver name : string) : M R (option error) :=
  (emit (EvNewStream peer proto ver name) ;;
   elapse (newStream_took env) ;;
   ret (newStream_err env))%go.

Definition stream_Close (s : StreamId) : St -> St := record (EvStreamClose s).

(** Modelled from the spec: [protobuf.WriteMsgWithTimeout] is not among
    the sources.  The transport "supports a per-write deadline" and the
    write is "bounded by a fixed per-hop deadline": a write that would take
    longer than [d] fails with a timeout once [d] has passed. *)
Definition WriteMsgWithTimeout {R} (env : SendEnv) (d : Z) (peer : Address)
    (msg : Delivery) : M R (option error) :=
  (emit (EvWriteDelivery d peer msg) ;;
   if (d <? write_took env)%Z
   then elapse d ;; ret (Some protobuf_ErrTimeout)
   else elapse (write_took env) ;; ret (write_err env))%go.

(** [r.ReadMsg] takes no deadline: it returns when the peer has answered. *)
Definition ReadMsg_Receipt {R} (env : SendEnv) (peer : Address) : M R (result Receipt) :=
  (emit (EvReadReceipt peer) ;;
   elapse (read_took env) ;;
   ret (read_res env))%go.

Definition ReadMsg_Delivery {R} (env : HandlerEnv) : M R (result Delivery) :=
  (emit EvReadDelivery ;; ret (h_read env))%go.
Definition WriteMsg_Receipt {R} (env : HandlerEnv) (r : Receipt) : M R (option error) :=
  (emit (EvWriteReceipt r) ;; ret (h_write env))%go.
Definition storer_Put {R} (ans : option error) (mode : ModePut) (c : Chunk)
  : M R (option error) :=
  (emit (EvPut mode c) ;; ret ans)%go.
Definition storer_Set {R} (ans : option error) (mode : ModeSet) (a : Address)
  : M R (option error) :=
  (emit (EvSet mode a) ;; ret ans)%go.
Definition ClosestPeer {R} (ans : Address * option error) (a : Address)
  : M R (Address * option error) :=
  (emit (EvClosestPeer a) ;; ret ans)%go.

(** ** [New] and [Close] *)

(** [New] builds the instance and starts [chunksWorker] in a goroutine;
    the worker is the function [chunksWorker] below. *)
Definition New (o : Options) : PushSync :=
  {| retryChunks := ∅; quit := chan_open |}.

(** What running a function that may panic gives. *)
Inductive exec (A : Type) : Type :=
| Done (a : A)
| Panic (msg : string).
Arguments Done {A} a.
Arguments Panic {A} msg.

(** The built-in [close]: closing a closed or a nil channel panics. *)
Definition close (c : chan) : exec chan :=
  match c with
  | chan_open => Done chan_closed
  | chan_closed => Panic "close of closed channel"
  | chan_nil => Panic "close of nil channel"
  end.

Definition Close (p : PushSync) : exec (option error * PushSync) :=
  match close (quit p) with
  | Panic msg => Panic msg
  | Done q => Done (None, mkPushSync (retryChunks p) q)
  end.

(** ** [sendChunkAndReceiveReceipt] *)

Definition sendChunkAndReceiveReceipt (env : SendEnv) (peer : Address) (ch : Chunk)
  : St -> option error * St :=
  func (
    startTimer <- time_Now ;;
    err <- streamer_NewStream env peer protocolName protocolVersion streamName ;;
    match err with
    | Some e => Return (Some (ErrWrap "new stream: " e))
    | None =>
    defer (stream_Close (Outbound peer)) (
      (* between retryChunksMu.Lock() and Unlock() *)
      found <- retryChunks_lookup (Address_String (Chunk_Address ch)) ;;
      noOfRetries <-
        match found with
        | Some noOfRetries =>
            if (MaxRetries <? noOfRetries)%Z then
              retryChunks_delete (Address_String (Chunk_Address ch)) ;;
              Inc RetriesExhaustedCounter ;;
              Return (Some ErrMaxRetriesExhausted)
            else
              ret (int_wrap (noOfRetries + 1))         (* noOfRetries++ *)
        | None =>
            retryChunks_store (Address_String (Chunk_Address ch)) 0 ;;
            ret 0
        end ;;
      (* noOfRetries is not used from here on *)
      err <- WriteMsgWithTimeout env timeToWaitForReceipt peer
               {| Delivery_Address := Bytes (Chunk_Address ch);
                  Delivery_Data := Chunk_Data ch |} ;;
      match err with
      | Some e => Inc SendChunkErrorCounter ;; Return (Some e)
      | None =>
      timeSpent <- time_Since startTimer ;;
      Add SendChunkTimer timeSpent ;;
      Inc ChunksSentCounter ;;
      startTimer <- time_Now ;;
      rd <- ReadMsg_Receipt env peer ;;
      match rd with
      | Err e => Inc ReceiveReceiptErrorCounter ;; Return (Some e)
      | Ok receipt =>
      timeSpent <- time_Since startTimer ;;
      Add ReceiptRTT timeSpent ;;
      Inc ReceiptsReceivedCounter ;;
      Return None
      end end)
    end)%go.

(** ** [handler] *)

Definition handler (env : HandlerEnv) (p : Address) : St -> option error * St :=
  func (
    defer (stream_Close Inbound) (
      rd <- ReadMsg_Delivery env ;;
      match rd with
      | Err err =>
          Inc ReceivedChunkErrorCounter ;;
          if decide (err = io_EOF) then Return None else Return (Some err)
      | Ok ch =>
      Inc ChunksSentCounter ;;
      (* create chunk and store it in the local store *)
      let addr := NewAddress (Delivery_Address ch) in
      let chunk := NewChunk addr (Delivery_Data ch) in
      err <- storer_Put (h_put env) ModePutSync chunk ;;
      match err with
      | Some e => Return (Some e)
      | None =>
      (* var receipt pb.Receipt: the zero value *)
      let receipt := {| Receipt_Address := [] |} in
      err <- WriteMsg_Receipt env receipt ;;
      match err with
      | Some e => Inc SendReceiptErrorCounter ;; Return (Some e)
      | None =>
      Inc ReceiptsSentCounter ;;
      res <- ClosestPeer (h_closest env) addr ;;
      let peer := fst res in
      match snd res with
      | Some e =>
          if errors_Is e topology_ErrWantSelf
          then Return None       (* i'm the closest - nothing to do *)
          else Return (Some e)
      | None =>
      (* peer is not used *)
      err <- storer_Set (h_set env) ModeSetSyncPush (Chunk_Address chunk) ;;
      match err with
      | Some _ =>
          logger_Errorf "pushsync: error setting chunks to synced" ;;
          Inc ErrorSettingChunkToSynced
      | None => ret tt
      end ;;
      Inc TotalChunksSynced ;;
      Return err
      end end end end))%go.

(** ** [chunksWorker] *)

(** The variables of the loop.  A channel or function value that is only
    tested against [nil] is kept as a boolean. *)
Record Locals : Type := mkLocals {
  chunks : bool;            (* chunks != nil *)
  unsubscribe : bool;       (* unsubscribe != nil *)
  chunksInBatch : Z
}.

(** The case of the [select] that an iteration of the loop takes. *)
Inductive Select : Type :=
| RecvChunk (ch : Chunk) (env : ChunkEnv)   (* ch, more := <-chunks, more *)
| RecvClosed                                (* ch, more := <-chunks, !more *)
| TimerC (took : Z)                         (* <-timer.C; subscribing took this long *)
| Quit.                                     (* <-ps.quit *)

(** A nil channel is never ready; [quit] is ready once it is closed. *)
Definition select_ready (ev : Select) (l : Locals) (s : St) : bool :=
  match ev with
  | RecvChunk _ _ | RecvClosed => chunks l
  | TimerC _ => true
  | Quit => if decide (quit (ps s) = chan_closed) then true else false
  end.

(** The chunk case after [chunksInBatch++]; [continue] leaves the case. *)
Definition chunk_case (env : ChunkEnv) (ch : Chunk) : St -> unit * St :=
  func (
    Inc TotalChunksToBeSentCounter ;;
    res <- ClosestPeer (c_closest env) (Chunk_Address ch) ;;
    let peer := fst res in
    match snd res with
    | Some e =>
        if errors_Is e topology_ErrWantSelf then
          err <- storer_Set (c_set env) ModeSetSyncPush (Chunk_Address ch) ;;
          match err with
          | Some _ => logger_Error "pushsync: error setting chunks to synced"
          | None => ret tt
          end ;;
          Return tt                                   (* continue *)
        else ret tt
    | None => ret tt
    end ;;
    err <- call (sendChunkAndReceiveReceipt (c_send env) peer ch) ;;
    match err with
    | Some _ =>
        logger_Errorf "error while sending chunk or receiving receipt" ;;
        Return tt
    | None =>
    (* set chunk status to synced, insert to db GC index *)
    err <- storer_Set (c_set env) ModeSetSyncPush (Chunk_Address ch) ;;
    match err with
    | Some _ =>
        logger_Errorf "pushsync: error setting chunks to synced" ;;
        Inc ErrorSettingChunkToSynced ;;
        Return tt
    | None => Inc TotalChunksSynced
    end end)%go.

(** The timer case. *)
Definition timer_case (l : Locals) (took : Z) : St -> unit * St :=
  func (
    startTime <- time_Now ;;
    (if unsubscribe l then emit EvUnsubscribe else ret tt) ;;
    emit EvSubscribePush ;;
    elapse took ;;
    emit (EvTimerReset retryInterval) ;;
    timeSpent <- time_Since startTime ;;
    Add MarkAndSweepTimer timeSpent)%go.

Inductive Worker : Type :=
| Running (l : Locals)
| Exited.

(** One iteration of the [for] loop, taking the case [ev]. *)
Definition chunksWorker_iter (ev : Select) (l : Locals) (s : St) : Worker * St :=
  match ev with
  | RecvClosed =>
      let dur := if decide (chunksInBatch l = 0) then 500 * Millisecond else 0 in
      (Running (mkLocals false (unsubscribe l) (chunksInBatch l)),
       record (EvTimerReset dur) s)
  | RecvChunk ch env =>
      (Running (mkLocals (chunks l) (unsubscribe l) (int_wrap (chunksInBatch l + 1))),
       snd (chunk_case env ch s))
  | TimerC took =>
      (Running (mkLocals true true (chunksInBatch l)),
       snd (timer_case l took s))
  | Quit =>
      (Exited, if unsubscribe l then record EvUnsubscribe s else s)
  end.

(** The loop along a schedule of cases; [None] when the schedule asks for
    a case that is not ready or goes on after the loop has returned. *)
Fixpoint chunksWorker_loop (evs : list Select) (l : Locals) (s : St)
  : option (Worker * St) :=
  match evs with
  | [] => Some (Running l, s)
  | ev :: rest =>
      if select_ready ev l s then
        match chunksWorker_iter ev l s with
        | (Running l', s') => chunksWorker_loop rest l' s'
        | (Exited, s') => match rest with [] => Some (Exited, s') | _ => None end
        end
      else None
  end.

Definition chunksWorker_locals : Locals :=
  {| chunks := false; unsubscribe := false; chunksInBatch := -1 |}.

(** [chunksWorker]: the timer is created with duration 0 and stopped when
    the function returns. *)
Definition chunksWorker (evs : list Select) (s : St) : option (Worker * St) :=
  match chunksWorker_loop evs chunksWorker_locals (record (EvNewTimer 0) s) with
  | Some (Exited, s') => Some (Exited, record EvTimerStop s')
  | r => r
  end.

(** ** Inputs of the package's tests *)

Definition chunkAddress : Address := NewAddress (x70 :: repeat x00 31).
Definition chunkData : bytes := [x31; x32; x33; x34].
Definition pivotNode : Address := NewAddress (repeat x00 32).
Definition closestPeer : Address := NewAddress (x60 :: repeat x00 31).
Definition testChunk : Chunk := NewChunk chunkAddress chunkData.
Definition testDelivery : Delivery := mkDelivery (Bytes chunkAddress) chunkData.

(** A fresh instance in a world where nothing has happened yet. *)
Definition fresh : St := mkSt (New mkOptions) [] 0.

(** An instance whose tracker holds [n] for [a]. *)
Definition tracking (a : Address) (n : Z) : St :=
  mkSt (mkPushSync {[ Address_String a := n ]} chan_open) [] 0.

(** A peer that takes the Delivery after [w] ns and answers with a
    receipt for [a] after a further [r] ns. *)
Definition peer_ok (a : Address) (w r : Z) : SendEnv :=
  {| newStream_err := None; newStream_took := 0;
     write_err := None; write_took := w;
     read_res := Ok (mkReceipt (Bytes a)); read_took := r |}.

(** A peer whose stream opens and then breaks on the write. *)
Definition peer_write_fails : SendEnv :=
  {| newStream_err := None; newStream_took := 0;
     write_err := Some (ErrOther "stream reset"); write_took := 0;
     read_res := Err io_EOF; read_took := 0 |}.

(** The collaborators of [TestForwardChunk] and
    [TestGetChunkAndSendReceipt]: the topology names [closestPeer]. *)
Definition env_closer_peer : HandlerEnv :=
  {| h_read := Ok testDelivery; h_put := None; h_write := None;
     h_closest := (closestPeer, None); h_set := None |}.

(** The collaborators of [TestNoForwardChunk]: the topology answers
    [ErrWantSelf]. *)
Definition env_want_self : HandlerEnv :=
  {| h_read := Ok testDelivery; h_put := None; h_write := None;
     h_closest := (ZeroAddress, Some topology_ErrWantSelf); h_set := None |}.

(** A topology that fails with an error other than [ErrWantSelf]. *)
Definition env_routing_fails : ChunkEnv :=
  {| c_closest := (ZeroAddress, Some (ErrOther "no peers"));
     c_set := None;
     c_send := peer_ok chunkAddress 0 0 |}.

Definition env_routes_to_peer : ChunkEnv :=
  {| c_closest := (closestPeer, None);
     c_set := None;
     c_send := peer_ok chunkAddress 0 0 |}.

(** The events a call adds to the trace of the state it starts in. *)
Definition added (before after : St) : list Event :=
  drop (length (trace before)) (trace after).

(** ** Reading a trace *)

Definition receipts_written (evs : list Event) : list Receipt :=
  omap (fun e => match e with EvWriteReceipt r => Some r | _ => None end) evs.

Definition streams_opened (evs : list Event) : list Address :=
  omap (fun e => match e with EvNewStream p _ _ _ => Some p | _ => None end) evs.

Definition deliveries_sent (evs : list Event) : list (Address * Delivery) :=
  omap (fun e => match e with EvWriteDelivery _ p d => Some (p, d) | _ => None end) evs.

Definition chunks_put (evs : list Event) : list Chunk :=
  omap (fun e => match e with EvPut _ c => Some c | _ => None end) evs.

Definition set_synced (evs : list Event) : list Address :=
  omap (fun e => match e with EvSet ModeSetSyncPush a => Some a | _ => None end) evs.

Definition logged (evs : list Event) : list string :=
  omap (fun e => match e with EvLog m => Some m | _ => None end) evs.

Definition timer_resets (evs : list Event) : list Z :=
  omap (fun e => match e with EvTimerReset d => Some d | _ => None end) evs.

(** The chunks a schedule hands to the worker. *)
Fixpoint received (evs : list Select) : nat :=
  match evs with
  | [] => 0
  | RecvChunk _ _ :: rest => S (received rest)
  | _ :: rest => received rest
  end.

(** The timer durations set along a run of the worker from a fresh
    instance. *)
Definition worker_timer_resets (evs : list Select) : option (list Z) :=
  option_map (fun r => timer_resets (trace (snd r))) (chunksWorker evs fresh).

(** A retry map in which every count is 0. *)
Definition all_zero (m : gmap string Z) : Prop :=
  forall k v, m !! k = Some v -> v = 0.

(** ** [Protocol] *)

Record StreamSpec : Type := mkStreamSpec {
  StreamSpec_Name : string;
  StreamSpec_Handler : HandlerEnv -> Address -> St -> option error * St
}.

Record ProtocolSpec : Type := mkProtocolSpec {
  ProtocolSpec_Name : string;
  ProtocolSpec_Version : string;
  ProtocolSpec_StreamSpecs : list StreamSpec
}.

Definition Protocol (p : PushSync) : ProtocolSpec :=
  {| ProtocolSpec_Name := protocolName;
     ProtocolSpec_Version := protocolVersion;
     ProtocolSpec_StreamSpecs :=
       [ {| StreamSpec_Name := streamName; StreamSpec_Handler := handler |} ] |}.

(** ** More collaborators, and more ways to read a trace *)

Definition env_read_eof : HandlerEnv :=
  {| h_read := Err io_EOF; h_put := None; h_write := None;
     h_closest := (closestPeer, None); h_set := None |}.

Definition env_read_wrapped_eof : HandlerEnv :=
  {| h_read := Err (ErrWrap "read: " io_EOF); h_put := None; h_write := None;
     h_closest := (closestPeer, None); h_set := None |}.

Definition env_put_fails : HandlerEnv :=
  {| h_read := Ok testDelivery; h_put := Some (ErrOther "disk full");
     h_write := None; h_closest := (closestPeer, None); h_set := None |}.

Definition env_receipt_fails : HandlerEnv :=
  {| h_read := Ok testDelivery; h_put := None;
     h_write := Some (ErrOther "stream reset");
     h_closest := (closestPeer, None); h_set := None |}.

Definition env_handler_routing_fails : HandlerEnv :=
  {| h_read := Ok testDelivery; h_put := None; h_write := None;
     h_closest := (ZeroAddress, Some (ErrOther "no peers")); h_set := None |}.

Definition env_set_fails : HandlerEnv :=
  {| h_read := Ok testDelivery; h_put := None; h_write := None;
     h_closest := (closestPeer, None); h_set := Some (ErrOther "not found") |}.

Definition peer_unreachable : SendEnv :=
  {| newStream_err := Some (ErrOther "dial failed"); newStream_took := 0;
     write_err := None; write_took := 0;
     read_res := Err io_EOF; read_took := 0 |}.

(** A peer that takes the Delivery and then closes the stream. *)
Definition peer_silent : SendEnv :=
  {| newStream_err := None; newStream_took := 0;
     write_err := None; write_took := 0;
     read_res := Err io_EOF; read_took := 0 |}.

Definition env_self_closest : ChunkEnv :=
  {| c_closest := (ZeroAddress, Some (ErrWrap "closest peer: " topology_ErrWantSelf));
     c_set := None;
     c_send := peer_ok chunkAddress 0 0 |}.

Definition env_transfer_fails : ChunkEnv :=
  {| c_closest := (closestPeer, None); c_set := None; c_send := peer_write_fails |}.

Definition env_worker_set_fails : ChunkEnv :=
  {| c_closest := (closestPeer, None); c_set := Some (ErrOther "not found");
     c_send := peer_ok chunkAddress 0 0 |}.

Definition streams_closed (evs : list Event) : list StreamId :=
  omap (fun e => match e with EvStreamClose s => Some s | _ => None end) evs.

Definition incremented (evs : list Event) : list Metric :=
  omap (fun e => match e with EvInc m => Some m | _ => None end) evs.

Definition receipts_read (evs : list Event) : list Address :=
  omap (fun e => match e with EvReadReceipt p => Some p | _ => None end) evs.

Definition routing_queries (evs : list Event) : list Address :=
  omap (fun e => match e with EvClosestPeer a => Some a | _ => None end) evs.

(** The subscription as a trace shows it, read from left to right:
    whether one is open at the end, or [None] when a subscription is
    opened while one is open or an unsubscribe comes with none open. *)
Fixpoint subscriptions_ok (evs : list Event) (open : bool) : option bool :=
  match evs with
  | [] => Some open
  | EvSubscribePush :: rest => if open then None else subscriptions_ok rest true
  | EvUnsubscribe :: rest => if open then subscriptions_ok rest false else None
  | _ :: rest => subscriptions_ok rest open
  end.

(** Transfers of one chunk to one peer, one after the other on the same
    instance, as the sweeps of the worker make them; the collaborators of
    each attempt are given in order, the results come back in order. *)
Fixpoint attempts (envs : list SendEnv) (peer : Address) (ch : Chunk) (s : St)
  : list (option error) * St :=
  match envs with
  | [] => ([], s)
  | env :: rest =>
      let (r, s1) := sendChunkAndReceiveReceipt env peer ch s in
      let (rs, s2) := attempts rest peer ch s1 in
      (r :: rs, s2)
  end.

Definition is_subscription_event (e : Event) : bool :=
  match e with
  | EvSubscribePush | EvUnsubscribe => true
  | _ => false
  end.

(** An instance on which [Close] has been called. *)
Definition closed_instance : St := mkSt (mkPushSync ∅ chan_closed) [] 0.

(** * Package [discovery/mock] *)

Module mock.

(** [p2p.Peer] *)
Record Peer : Type := mkPeer { Peer_Address : Address }.

(** [Address.ByteString()]: the bytes themselves as a string. *)
Definition ByteString (a : Address) : string := string_of_list_byte (Bytes a).

(** [peers map[string]peersMap], [peersMap = map[int][]p2p.Peer].  A slice
    is the list of its elements, the nil slice the empty list. *)
Record Peerer : Type := mkPeerer {
  peers : gmap string (gmap Z (list Peer))
}.

Definition NewPeerer : Peerer := {| peers := ∅ |}.

(** Reading a missing key of a map, or of a nil map, gives the zero
    value. *)
Definition bin_of (p : Peerer) (peer : Peer) (bin : Z) : list Peer :=
  default [] (default ∅ (peers p !! ByteString (Peer_Address peer)) !! bin).

(** [peers[0:limit]] panics when [limit] is negative; the code makes sure
    that it does not exceed the length. *)
Definition Peers (p : Peerer) (peer : Peer) (bin limit : Z) : exec (list Peer) :=
  let found := bin_of p peer bin in
  if decide (limit <> 0) then
    let limit := if decide (limit > Z.of_nat (length found))
                 then Z.of_nat (length found) else limit in
    if decide (limit < 0)
    then Panic "slice bounds out of range"
    else Done (take (Z.to_nat limit) found)
  else Done found.

Definition Add (p : Peerer) (peer : Peer) (bin : Z) (new : list Peer) : Peerer :=
  let key := ByteString (Peer_Address peer) in
  let peersMap := match peers p !! key with
                  | Some m => m
                  | None => ∅
                  end in
  let peersMap := <[bin := default [] (peersMap !! bin) ++ new]> peersMap in
  {| peers := <[key := peersMap]> (peers p) |}.

Definition somePeer (b : Byte.byte) : Peer := mkPeer (NewAddress [b]).

End mock.

(** * Package [file/splitter] *)

Module splitter.

Definition ChunkSize : Z := 4096.

(** Go's [int64]. *)
Definition int64 (z : Z) : Z := (z + 2 ^ 63) mod 2 ^ 64 - 2 ^ 63.

(** The errors [Split] returns: the two it formats itself, with the
    numbers it prints, and the ones it passes on. *)
Inductive SplitError : Type :=
| ErrShortData (received expected : Z)
    (* "splitter only received %d bytes of data, expected %d bytes" *)
| ErrWriteCount (written read : Z)
    (* "write count to file hasher component %d does not match read count %d" *)
| ErrPassed (e : error).

(** What [Split] leaves behind: the slices it handed to [j.Write], in
    order, and what it returned. *)
Record Outcome : Type := mkOutcome {
  written : list bytes;
  addr : Address;
  err : option SplitError
}.

Section Split.

(** The hash job of package [internal] is not among the sources; it is a
    parameter: what [j.Write] answers, given the slices written before and
    the one being written, and what [j.Sum(nil)] gives for the slices
    written. *)
Variable jobWrite : list bytes -> bytes -> Z * option error.
Variable jobSum : list bytes -> bytes.

(** The loop of [Split] along the answers of [r.Read]: the bytes it put
    into the buffer and its error.  [None]: the answers have run out
    before the loop was left, the next [Read] is still pending. *)
Fixpoint Split_loop (reads : list (bytes * option error)) (dataLength total : Z)
    (w : list bytes) : option Outcome :=
  match reads with
  | [] => None
  | (data, rerr) :: rest =>
      let c := Z.of_nat (length data) in
      let total := int64 (total + c) in
      match rerr with
      | Some e =>
          if decide (e = io_EOF) then
            if (total <? dataLength)%Z then
              Some (mkOutcome w ZeroAddress
                      (Some (ErrShortData (int64 (total + c)) dataLength)))
            else
              (* eof = true; continue: the loop ends *)
              Some (mkOutcome w (NewAddress (jobSum w)) None)
          else Some (mkOutcome w ZeroAddress (Some (ErrPassed e)))
      | None =>
          let (cc, werr) := jobWrite w data in
          match werr with
          | Some e => Some (mkOutcome (w ++ [data]) ZeroAddress (Some (ErrPassed e)))
          | None =>
              if (cc <? c)%Z then
                Some (mkOutcome (w ++ [data]) ZeroAddress (Some (ErrWriteCount cc c)))
              else Split_loop rest dataLength total (w ++ [data])
          end
      end
  end.

Definition Split (reads : list (bytes * option error)) (dataLength : Z)
  : option Outcome :=
  Split_loop reads dataLength 0 [].

End Split.

(** Reads that bring data and no error. *)
Definition plain (chunks : list bytes) : list (bytes * option error) :=
  map (fun data => (data, None)) chunks.

Definition size (chunks : list bytes) : Z :=
  Z.of_nat (length (concat chunks)).

(** A job that takes everything it is given. *)
Definition takes_all (jobWrite : list bytes -> bytes -> Z * option error) : Prop :=
  forall w data, jobWrite w data = (Z.of_nat (length data), None).

Definition writeAll (w : list bytes) (data : bytes) : Z * option error :=
  (Z.of_nat (length data), None).

Definition sumConcat (w : list bytes) : bytes := concat w.

(** A job that takes its first write and refuses the following ones. *)
Definition acceptOnce (w : list bytes) (data : bytes) : Z * option error :=
  match w with
  | [] => (Z.of_nat (length data), None)
  | _ => (0, Some (ErrOther "hasher closed"))
  end.

End splitter.

(** * Properties *)

(** ** Tools *)

Ltac go_unfold :=
  cbv [func bind ret Return defer call emit elapse time_Now time_Since Inc Add
       logger_Error logger_Errorf retryChunks_lookup retryChunks_store retryChunks_delete
       streamer_NewStream stream_Close WriteMsgWithTimeout ReadMsg_Receipt
       ReadMsg_Delivery WriteMsg_Receipt storer_Put storer_Set ClosestPeer
       record].

Lemma added_app (s s' : St) (evs : list Event) :
  trace s' = trace s ++ evs -> added s s' = evs.
Proof.
  intros H. unfold added. rewrite H. apply drop_app_length.
Qed.

(** Brings a trace built by successive [record]s into the form
    [trace s ++ events]. *)
Ltac trace_norm :=
  repeat rewrite <- app_assoc; cbn [app].

(** ** The point-to-point transfer *)

Section Transfer.
Variables (env : SendEnv) (peer : Address) (ch : Chunk) (s : St).

Let key : string := Address_String (Chunk_Address ch).
Let opened : Event := EvNewStream peer protocolName protocolVersion streamName.
Let delivery : Event :=
  EvWriteDelivery timeToWaitForReceipt peer
    (mkDelivery (Bytes (Chunk_Address ch)) (Chunk_Data ch)).

(** A stream that cannot be opened: nothing else happens, and the retry
    map is not consulted. *)
Lemma send_newStream_fails (e : error) :
  newStream_err env = Some e ->
  sendChunkAndReceiveReceipt env peer ch s =
    (Some (ErrWrap "new stream: " e),
     mkSt (ps s) (trace s ++ [opened]) (now s + newStream_took env)).
Proof.
  intros H. unfold sendChunkAndReceiveReceipt. go_unfold. cbn.
  rewrite H. reflexivity.
Qed.

(** The exhausted branch. *)
Lemma send_exhausted (n : Z) :
  newStream_err env = None ->
  retryChunks (ps s) !! key = Some n ->
  MaxRetries < n ->
  sendChunkAndReceiveReceipt env peer ch s =
    (Some ErrMaxRetriesExhausted,
     mkSt (mkPushSync (delete key (retryChunks (ps s))) (quit (ps s)))
          (trace s ++ [opened; EvInc RetriesExhaustedCounter;
                       EvStreamClose (Outbound peer)])
          (now s + newStream_took env)).
Proof.
  intros Hn Hl Hlt. unfold sendChunkAndReceiveReceipt. go_unfold. cbn.
  rewrite Hn. cbn. fold key. rewrite Hl.
  destruct (Z.ltb_spec MaxRetries n) as [_|Hge]; [|lia].
  cbn. trace_norm. reflexivity.
Qed.

(** The retry map after a call, whatever the call ended in: the entry
    of the chunk is deleted in the exhausted branch, created with 0 when
    there was none, and left as it was otherwise. *)
Lemma send_tracker :
  retryChunks (ps (snd (sendChunkAndReceiveReceipt env peer ch s))) =
    match newStream_err env with
    | Some _ => retryChunks (ps s)
    | None =>
        match retryChunks (ps s) !! key with
        | Some n => if (MaxRetries <? n)%Z
                    then delete key (retryChunks (ps s))
                    else retryChunks (ps s)
        | None => <[key := 0]> (retryChunks (ps s))
        end
    end.
Proof.
  unfold sendChunkAndReceiveReceipt. go_unfold. cbn. fold key.
  destruct (newStream_err env); [reflexivity|]. cbn.
  destruct (retryChunks (ps s) !! key) as [n|]; cbn.
  - destruct (MaxRetries <? n)%Z; cbn; [reflexivity|].
    destruct (timeToWaitForReceipt <? write_took env)%Z; cbn; [reflexivity|].
    destruct (write_err env); cbn; [reflexivity|].
    destruct (read_res env); reflexivity.
  - destruct (timeToWaitForReceipt <? write_took env)%Z; cbn; [reflexivity|].
    destruct (write_err env); cbn; [reflexivity|].
    destruct (read_res env); reflexivity.
Qed.

Lemma send_quit :
  quit (ps (snd (sendChunkAndReceiveReceipt env peer ch s))) = quit (ps s).
Proof.
  unfold sendChunkAndReceiveReceipt. go_unfold. cbn.
  destruct (newStream_err env); [reflexivity|]. cbn.
  destruct (retryChunks (ps s) !! _) as [n|]; cbn.
  - destruct (MaxRetries <? n)%Z; cbn; [reflexivity|].
    destruct (timeToWaitForReceipt <? write_took env)%Z; cbn; [reflexivity|].
    destruct (write_err env); cbn; [reflexivity|].
    destruct (read_res env); reflexivity.
  - destruct (timeToWaitForReceipt <? write_took env)%Z; cbn; [reflexivity|].
    destruct (write_err env); cbn; [reflexivity|].
    destruct (read_res env); reflexivity.
Qed.


(** What a successful call does, in order, and how long it takes. *)
Lemma send_success (r : Receipt) :
  newStream_err env = None ->
  (forall n, retryChunks (ps s) !! key = Some n -> n <= MaxRetries) ->
  write_took env <= timeToWaitForReceipt ->
  write_err env = None ->
  read_res env = Ok r ->
  let s' := snd (sendChunkAndReceiveReceipt env peer ch s) in
  fst (sendChunkAndReceiveReceipt env peer ch s) = None /\
  trace s' = trace s ++
    [opened; delivery;
     EvAdd SendChunkTimer (newStream_took env + write_took env);
     EvInc ChunksSentCounter;
     EvReadReceipt peer;
     EvAdd ReceiptRTT (read_took env);
     EvInc ReceiptsReceivedCounter;
     EvStreamClose (Outbound peer)] /\
  now s' = now s + newStream_took env + write_took env + read_took env.
Proof.
  intros Hn Hle Hw Hwe Hr.
  unfold sendChunkAndReceiveReceipt. go_unfold. cbn. fold key.
  rewrite Hn. cbn.
  destruct (Z.ltb_spec timeToWaitForReceipt (write_took env)) as [Hlt|_];
    [lia|].
  destruct (retryChunks (ps s) !! key) as [n|] eqn:Hl; cbn.
  - destruct (Z.ltb_spec MaxRetries n) as [Hlt|_];
      [specialize (Hle n eq_refl); lia|].
    cbn. rewrite Hwe. cbn. rewrite Hr. cbn. trace_norm.
    repeat split; try reflexivity.
    do 4 f_equal. f_equal. lia. do 3 f_equal. f_equal. lia.
  - rewrite Hwe. cbn. rewrite Hr. cbn. trace_norm.
    repeat split; try reflexivity.
    do 4 f_equal. f_equal. lia. do 3 f_equal. f_equal. lia.
Qed.
End Transfer.

(** No call ever stores a count other than the initial 0: an entry found
    after a call is one that was there before, with the same count, or is
    0.  In particular the increment [noOfRetries++] reaches no map. *)
Lemma send_counts_never_grow (env : SendEnv) (peer : Address) (ch : Chunk)
    (s : St) (k : string) (v : Z) :
  retryChunks (ps (snd (sendChunkAndReceiveReceipt env peer ch s))) !! k = Some v ->
  retryChunks (ps s) !! k = Some v \/ v = 0.
Proof.
  rewrite send_tracker.
  destruct (newStream_err env); [auto|].
  destruct (retryChunks (ps s) !! Address_String (Chunk_Address ch)) as [n|] eqn:Hl.
  - destruct (MaxRetries <? n)%Z; [|auto].
    rewrite lookup_delete. case_decide; [discriminate|auto].
  - rewrite lookup_insert. case_decide; [intros [= <-]; auto|auto].
Qed.

(** Hence a tracker that holds only zeros, as the one [New] makes does,
    holds only zeros after any call. *)
Lemma New_all_zero (o : Options) : all_zero (retryChunks (New o)).
Proof. intros k v. cbn. rewrite lookup_empty. discriminate. Qed.

Lemma send_all_zero (env : SendEnv) (peer : Address) (ch : Chunk) (s : St) :
  all_zero (retryChunks (ps s)) ->
  all_zero (retryChunks (ps (snd (sendChunkAndReceiveReceipt env peer ch s)))).
Proof.
  intros Hz k v Hk.
  destruct (send_counts_never_grow _ _ _ _ _ _ Hk) as [H|H]; eauto.
Qed.

(** From such a tracker no call removes an entry: the exhausted branch,
    which needs a count above [MaxRetries], is not taken. *)
Lemma send_all_zero_keeps_entries (env : SendEnv) (peer : Address) (ch : Chunk)
    (s : St) (k : string) :
  all_zero (retryChunks (ps s)) ->
  is_Some (retryChunks (ps s) !! k) ->
  is_Some (retryChunks (ps (snd (sendChunkAndReceiveReceipt env peer ch s))) !! k).
Proof.
  intros Hz Hk. rewrite send_tracker.
  destruct (newStream_err env); [assumption|].
  destruct (retryChunks (ps s) !! Address_String (Chunk_Address ch)) as [n|] eqn:Hl.
  - apply Hz in Hl. subst n. cbn. assumption.
  - rewrite lookup_insert. case_decide; [eauto|assumption].
Qed.

(** One attempt on an instance whose retry map holds only zeros: a
    stream is asked for, the Delivery is written whenever the stream opens,
    the exhaustion counter does not move and the map still holds only
    zeros. *)
Lemma attempt_from_zeros (env : SendEnv) (peer : Address) (ch : Chunk) (s : St) :
  all_zero (retryChunks (ps s)) ->
  exists evs,
    trace (snd (sendChunkAndReceiveReceipt env peer ch s)) = trace s ++ evs /\
    streams_opened evs = [peer] /\
    deliveries_sent evs =
      match newStream_err env with
      | None => [(peer, mkDelivery (Bytes (Chunk_Address ch)) (Chunk_Data ch))]
      | Some _ => []
      end /\
    filter (fun m => m = RetriesExhaustedCounter) (incremented evs) = [] /\
    all_zero (retryChunks (ps (snd (sendChunkAndReceiveReceipt env peer ch s)))).
Proof.
  intros Hz.
  assert (Hz' := send_all_zero env peer ch s Hz). revert Hz'.
  unfold sendChunkAndReceiveReceipt. go_unfold. cbn.
  destruct (newStream_err env); cbn;
    [intros Hz'; eexists; split; [reflexivity|]; repeat split; exact Hz'|].
  destruct (retryChunks (ps s) !! Address_String (Chunk_Address ch)) as [n|] eqn:Hl;
    cbn.
  - apply Hz in Hl. subst n. cbn.
    destruct (timeToWaitForReceipt <? write_took env)%Z; cbn;
      [intros Hz'; eexists; split; [trace_norm; reflexivity|]; repeat split; exact Hz'|].
    destruct (write_err env); cbn;
      [intros Hz'; eexists; split; [trace_norm; reflexivity|]; repeat split; exact Hz'|].
    destruct (read_res env); cbn;
      intros Hz'; eexists; (split; [trace_norm; reflexivity|]); repeat split; exact Hz'.
  - destruct (timeToWaitForReceipt <? write_took env)%Z; cbn;
      [intros Hz'; eexists; split; [trace_norm; reflexivity|]; repeat split; exact Hz'|].
    destruct (write_err env); cbn;
      [intros Hz'; eexists; split; [trace_norm; reflexivity|]; repeat split; exact Hz'|].
    destruct (read_res env); cbn;
      intros Hz'; eexists; (split; [trace_norm; reflexivity|]); repeat split; exact Hz'.
Qed.

(** Any number of attempts for one chunk, whatever each ends in. *)
Lemma attempts_from_zeros (envs : list SendEnv) (peer : Address) (ch : Chunk) :
  forall s : St,
    all_zero (retryChunks (ps s)) ->
    exists evs,
      trace (snd (attempts envs peer ch s)) = trace s ++ evs /\
      streams_opened evs = repeat peer (length envs) /\
      deliveries_sent evs =
        omap (fun env => match newStream_err env with
                         | None => Some (peer, mkDelivery (Bytes (Chunk_Address ch))
                                                  (Chunk_Data ch))
                         | Some _ => None
                         end) envs /\
      filter (fun m => m = RetriesExhaustedCounter) (incremented evs) = [] /\
      all_zero (retryChunks (ps (snd (attempts envs peer ch s)))).
Proof.
  induction envs as [|env rest IH]; intros s Hz.
  - exists []. cbn. rewrite app_nil_r. repeat split. exact Hz.
  - cbn [attempts].
    destruct (attempt_from_zeros env peer ch s Hz) as (e1 & Ht1 & Ho1 & Hd1 & Hx1 & Hz1).
    destruct (sendChunkAndReceiveReceipt env peer ch s) as [r s1]. cbn [snd] in *.
    destruct (IH s1 Hz1) as (e2 & Ht2 & Ho2 & Hd2 & Hx2 & Hz2).
    destruct (attempts rest peer ch s1) as [rs s2]. cbn [snd] in *.
    exists (e1 ++ e2). split; [rewrite Ht2, Ht1, app_assoc; reflexivity|].
    unfold streams_opened, deliveries_sent, incremented in *.
    rewrite !omap_app, filter_app, Ho1, Ho2, Hd1, Hd2, Hx1, Hx2.
    repeat split; [|exact Hz2].
    cbn. destruct (newStream_err env); reflexivity.
Qed.

(** C2 (the code at the failing input): five transfers of the test chunk
    fail one after the other on a fresh instance, and a sixth is made.
    After the five failures the retry map holds 0 for the chunk, not a
    count of the failures, and the sixth attempt is not abandoned: it opens
    the stream, writes the Delivery, reads the receipt and returns [nil];
    the exhaustion counter has not moved and the entry is still there.
    In general, however many attempts are made for a chunk on a fresh
    instance and whatever each ends in, every attempt asks for a stream,
    every attempt whose stream opens writes the Delivery, the exhaustion
    counter never moves and the map never holds anything but 0. *)
Theorem C2_retries_are_never_exhausted :
  (let key := Address_String chunkAddress in
   let failed := attempts (repeat peer_write_fails 5) closestPeer testChunk fresh in
   let sixth := sendChunkAndReceiveReceipt (peer_ok chunkAddress 0 0) closestPeer
                  testChunk (snd failed) in
   fst failed = repeat (Some (ErrOther "stream reset")) 5 /\
   retryChunks (ps (snd failed)) !! key = Some 0 /\
   fst sixth = None /\
   added (snd failed) (snd sixth) =
     [EvNewStream closestPeer protocolName protocolVersion streamName;
      EvWriteDelivery timeToWaitForReceipt closestPeer testDelivery;
      EvAdd SendChunkTimer 0; EvInc ChunksSentCounter;
      EvReadReceipt closestPeer;
      EvAdd ReceiptRTT 0; EvInc ReceiptsReceivedCounter;
      EvStreamClose (Outbound closestPeer)] /\
   length (streams_opened (trace (snd sixth))) = 6%nat /\
   length (deliveries_sent (trace (snd sixth))) = 6%nat /\
   filter (fun m => m = RetriesExhaustedCounter) (incremented (trace (snd sixth))) = [] /\
   retryChunks (ps (snd sixth)) !! key = Some 0) /\
  (forall (envs : list SendEnv) (peer : Address) (ch : Chunk),
     let s' := snd (attempts envs peer ch fresh) in
     streams_opened (trace s') = repeat peer (length envs) /\
     deliveries_sent (trace s') =
       omap (fun env => match newStream_err env with
                        | None => Some (peer, mkDelivery (Bytes (Chunk_Address ch))
                                                 (Chunk_Data ch))
                        | Some _ => None
                        end) envs /\
     filter (fun m => m = RetriesExhaustedCounter) (incremented (trace s')) = [] /\
     all_zero (retryChunks (ps s'))).
Proof.
  split.
  - vm_compute. repeat split.
  - intros envs peer ch s'.
    destruct (attempts_from_zeros envs peer ch fresh (New_all_zero mkOptions))
      as (evs & Ht & Ho & Hd & Hx & Hz).
    subst s'. rewrite Ht. cbn [trace fresh app]. repeat split; assumption.
Qed.




(** C4 (the code at the failing input): two attempts one after the other
    for the same chunk, both failing on the write.  The first finds the
    count 0; after it the map still holds 0, and the second attempt finds
    0 again and leaves 0: the incremented count is never stored.  In
    general a call leaves under any key what was there, or nothing, or
    0. *)
Theorem C4_failed_attempt_count_not_stored :
  (let key := Address_String chunkAddress in
   let s0 := tracking chunkAddress 0 in
   let r1 := sendChunkAndReceiveReceipt peer_write_fails closestPeer testChunk s0 in
   let r2 := sendChunkAndReceiveReceipt peer_write_fails closestPeer testChunk (snd r1) in
   retryChunks (ps s0) !! key = Some 0 /\
   fst r1 = Some (ErrOther "stream reset") /\
   retryChunks (ps (snd r1)) !! key = Some 0 /\
   fst r2 = Some (ErrOther "stream reset") /\
   retryChunks (ps (snd r2)) !! key = Some 0) /\
  (forall (env : SendEnv) (peer : Address) (ch : Chunk) (s : St) (k : string),
     let m := retryChunks (ps s) in
     let m' := retryChunks (ps (snd (sendChunkAndReceiveReceipt env peer ch s))) in
     m' !! k = m !! k \/ m' !! k = None \/ m' !! k = Some 0).
Proof.
  split.
  - vm_compute. repeat split.
  - intros env peer ch s k m m'.
    destruct (m' !! k) as [v|] eqn:Hk; [|auto].
    destruct (send_counts_never_grow env peer ch s k v Hk) as [H|H].
    + left. symmetry. exact H.
    + right. right. congruence.
Qed.

(** A peer that takes the Delivery within the deadline and answers after
    [r] ns, however long that is: the call waits for the answer, succeeds
    and reports [r] as the receipt round trip. *)
Lemma send_waits_for_receipt (a peer : Address) (ch : Chunk) (w r : Z) :
  w <= timeToWaitForReceipt ->
  let res := sendChunkAndReceiveReceipt (peer_ok a w r) peer ch fresh in
  fst res = None /\
  In (EvAdd ReceiptRTT r) (trace (snd res)) /\
  now (snd res) = w + r.
Proof.
  intros Hw res.
  destruct (send_success (peer_ok a w r) peer ch fresh (mkReceipt (Bytes a)))
    as (Hf & Ht & Hn); try reflexivity; try assumption.
  - intros n. cbn. rewrite lookup_empty. discriminate.
  - subst res. split; [exact Hf|]. split.
    + rewrite Ht. cbn. tauto.
    + rewrite Hn. cbn. lia.
Qed.

(** C7 (the code at the failing input): the peer takes the Delivery after
    1 ms and sends the Receipt 5 s later.  The call returns [nil] after
    5.001 s, more than twice [timeToWaitForReceipt]; the deadline was given
    to the write alone and the read was not bounded by anything: whatever
    time [r] the receipt takes, the call waits for it and succeeds. *)
Theorem C7_receipt_wait_has_no_deadline :
  (let res := sendChunkAndReceiveReceipt
                (peer_ok chunkAddress Millisecond (5 * Second))
                closestPeer testChunk fresh in
   fst res = None /\
   timeToWaitForReceipt = 2 * Second /\
   In (EvWriteDelivery timeToWaitForReceipt closestPeer testDelivery) (trace (snd res)) /\
   In (EvReadReceipt closestPeer) (trace (snd res)) /\
   In (EvAdd ReceiptRTT (5 * Second)) (trace (snd res)) /\
   now (snd res) - now fresh = 5 * Second + Millisecond /\
   timeToWaitForReceipt < now (snd res) - now fresh) /\
  (forall r : Z,
     let res := sendChunkAndReceiveReceipt (peer_ok chunkAddress 0 r)
                  closestPeer testChunk fresh in
     fst res = None /\
     In (EvAdd ReceiptRTT r) (trace (snd res)) /\
     now (snd res) - now fresh = r).
Proof.
  split.
  - vm_compute. repeat split; auto 10.
  - intros r res.
    assert (Hw : 0 <= timeToWaitForReceipt) by (vm_compute; discriminate).
    destruct (send_waits_for_receipt chunkAddress closestPeer testChunk 0 r Hw)
      as (Hf & Hi & Hn).
    subst res. repeat split; try assumption.
    rewrite Hn. cbn. lia.
Qed.


(** ** The delivery handler *)

(** The handler never touches the instance: the retry map is reached
    only through the transfer, which the handler does not call. *)
Lemma handler_ps (env : HandlerEnv) (p : Address) (s : St) :
  ps (snd (handler env p s)) = ps s.
Proof.
  unfold handler. go_unfold. cbn.
  destruct (h_read env) as [d|e]; cbn.
  - destruct (h_put env); cbn; [reflexivity|].
    destruct (h_write env); cbn; [reflexivity|].
    destruct (snd (h_closest env)) as [e|]; cbn.
    + destruct (errors_Is e topology_ErrWantSelf); reflexivity.
    + destruct (h_set env); reflexivity.
  - destruct (decide (e = io_EOF)); reflexivity.
Qed.

(** Whatever the collaborators answer, the handler opens no stream and
    writes no Delivery, and a receipt it writes carries no address. *)
Lemma handler_events (env : HandlerEnv) (p : Address) (s : St) :
  exists evs,
    trace (snd (handler env p s)) = trace s ++ evs /\
    streams_opened evs = [] /\
    deliveries_sent evs = [] /\
    (receipts_written evs = [] \/ receipts_written evs = [mkReceipt []]).
Proof.
  unfold handler. go_unfold. cbn.
  destruct (h_read env) as [d|e]; cbn.
  - destruct (h_put env); cbn;
      [eexists; split; [trace_norm; reflexivity|cbn; auto]|].
    destruct (h_write env); cbn;
      [eexists; split; [trace_norm; reflexivity|cbn; auto]|].
    destruct (snd (h_closest env)) as [e|]; cbn.
    + destruct (errors_Is e topology_ErrWantSelf); cbn;
        eexists; (split; [trace_norm; reflexivity|cbn; auto]).
    + destruct (h_set env); cbn;
        eexists; (split; [trace_norm; reflexivity|cbn; auto]).
  - destruct (decide (e = io_EOF)); cbn;
      eexists; (split; [trace_norm; reflexivity|cbn; auto]).
Qed.

(** C1 (the code at the failing input): the handler of the pivot node is
    given a Delivery for the test chunk, storage and the receipt write
    succeed and the topology names [closestPeer].  The handler marks the
    chunk synced and returns [nil], but it opens no stream and sends no
    Delivery: the peer it asked for is not used.  The worker, given the
    same chunk and the same peer, does send the Delivery.  No answer of
    the collaborators makes the handler open a stream or send a
    Delivery. *)
Theorem C1_handler_does_not_forward :
  (let r := handler env_closer_peer pivotNode fresh in
   fst r = None /\
   trace (snd r) =
     [EvReadDelivery; EvInc ChunksSentCounter;
      EvPut ModePutSync testChunk;
      EvWriteReceipt (mkReceipt []); EvInc ReceiptsSentCounter;
      EvClosestPeer chunkAddress;
      EvSet ModeSetSyncPush chunkAddress; EvInc TotalChunksSynced;
      EvStreamClose Inbound] /\
   streams_opened (trace (snd r)) = [] /\
   deliveries_sent (trace (snd r)) = [] /\
   deliveries_sent (trace (snd (chunk_case env_routes_to_peer testChunk fresh)))
     = [(closestPeer, testDelivery)]) /\
  (forall (env : HandlerEnv) (p : Address) (s : St),
     streams_opened (added s (snd (handler env p s))) = [] /\
     deliveries_sent (added s (snd (handler env p s))) = []).
Proof.
  split.
  - vm_compute. repeat split.
  - intros env p s.
    destruct (handler_events env p s) as (evs & Ht & Ho & Hd & _).
    rewrite (added_app _ _ _ Ht). split; assumption.
Qed.

(** C5 (counterexample): the collaborators of [TestNoForwardChunk].  The
    routing query reports want-self and the handler returns [nil] having
    stored the chunk and written one receipt, but storage is never asked
    to mark the chunk synced. *)
Lemma C5_counterexample :
  let r := handler env_want_self pivotNode fresh in
  snd (h_closest env_want_self) = Some topology_ErrWantSelf /\
  fst r = None /\
  chunks_put (trace (snd r)) = [testChunk] /\
  length (receipts_written (trace (snd r))) = 1%nat /\
  set_synced (trace (snd r)) = [] /\
  ~ In (EvSet ModeSetSyncPush chunkAddress) (trace (snd r)).
Proof.
  vm_compute. repeat split.
  intros H. decompose [or] H; discriminate || assumption.
Qed.

(** C5 (amended): when the Delivery has been read, stored and
    acknowledged and the routing query then reports want-self, the handler
    has stored the chunk, has written exactly one receipt, sends no
    forwarding message and returns [nil]; it makes no other call: storage
    is not asked to mark the chunk synced. *)
Theorem C5_want_self_stops_after_receipt (env : HandlerEnv) (p : Address)
    (s : St) (d : Delivery) (e : error) :
  h_read env = Ok d ->
  h_put env = None ->
  h_write env = None ->
  snd (h_closest env) = Some e ->
  errors_Is e topology_ErrWantSelf = true ->
  let r := handler env p s in
  let chunk := NewChunk (NewAddress (Delivery_Address d)) (Delivery_Data d) in
  fst r = None /\
  added s (snd r) =
    [EvReadDelivery; EvInc ChunksSentCounter;
     EvPut ModePutSync chunk;
     EvWriteReceipt (mkReceipt []); EvInc ReceiptsSentCounter;
     EvClosestPeer (Chunk_Address chunk);
     EvStreamClose Inbound] /\
  chunks_put (added s (snd r)) = [chunk] /\
  length (receipts_written (added s (snd r))) = 1%nat /\
  deliveries_sent (added s (snd r)) = [] /\
  streams_opened (added s (snd r)) = [] /\
  set_synced (added s (snd r)) = [] /\
  ps (snd r) = ps s.
Proof.
  intros Hr Hp Hw Hc He r chunk.
  assert (Hrun : r = (None,
            mkSt (ps s)
              (trace s ++ [EvReadDelivery; EvInc ChunksSentCounter;
                 EvPut ModePutSync chunk;
                 EvWriteReceipt (mkReceipt []); EvInc ReceiptsSentCounter;
                 EvClosestPeer (Chunk_Address chunk);
                 EvStreamClose Inbound])
              (now s))).
  { subst r chunk. unfold handler. go_unfold. cbn.
    rewrite Hr. cbn. rewrite Hp. cbn. rewrite Hw. cbn. rewrite Hc. cbn.
    rewrite He. cbn. trace_norm. reflexivity. }
  rewrite Hrun. cbn [fst snd].
  erewrite added_app by (cbn [trace]; reflexivity).
  repeat split.
Qed.

Lemma C5_want_self_stops_after_receipt_witness :
  h_read env_want_self = Ok testDelivery /\
  h_put env_want_self = None /\
  h_write env_want_self = None /\
  snd (h_closest env_want_self) = Some topology_ErrWantSelf /\
  errors_Is topology_ErrWantSelf topology_ErrWantSelf = true /\
  let r := handler env_want_self pivotNode fresh in
  let chunk := NewChunk (NewAddress (Delivery_Address testDelivery))
                 (Delivery_Data testDelivery) in
  fst r = None /\
  added fresh (snd r) =
    [EvReadDelivery; EvInc ChunksSentCounter;
     EvPut ModePutSync chunk;
     EvWriteReceipt (mkReceipt []); EvInc ReceiptsSentCounter;
     EvClosestPeer (Chunk_Address chunk);
     EvStreamClose Inbound] /\
  chunks_put (added fresh (snd r)) = [chunk] /\
  length (receipts_written (added fresh (snd r))) = 1%nat /\
  deliveries_sent (added fresh (snd r)) = [] /\
  streams_opened (added fresh (snd r)) = [] /\
  set_synced (added fresh (snd r)) = [] /\
  ps (snd r) = ps fresh.
Proof.
  do 5 (split; [reflexivity|]).
  exact (C5_want_self_stops_after_receipt env_want_self pivotNode fresh
           testDelivery topology_ErrWantSelf
           eq_refl eq_refl eq_refl eq_refl eq_refl).
Defined.

(** C9 (the code at the failing input): the collaborators of
    [TestGetChunkAndSendReceipt].  The one receipt the handler writes is
    the zero value: its address is empty, whereas the address of the chunk
    it acknowledges has 32 bytes.  Whatever the collaborators answer, the
    handler writes at most one receipt and that receipt is the empty
    one. *)
Theorem C9_receipt_carries_no_address :
  (let r := handler env_closer_peer pivotNode fresh in
   chunks_put (trace (snd r)) = [NewChunk chunkAddress chunkData] /\
   receipts_written (trace (snd r)) = [mkReceipt []] /\
   map Receipt_Address (receipts_written (trace (snd r))) = [[]] /\
   length (Bytes chunkAddress) = 32%nat) /\
  (forall (env : HandlerEnv) (p : Address) (s : St),
     receipts_written (added s (snd (handler env p s))) = [] \/
     receipts_written (added s (snd (handler env p s))) = [mkReceipt []]).
Proof.
  split.
  - vm_compute. repeat split.
  - intros env p s.
    destruct (handler_events env p s) as (evs & Ht & _ & _ & Hr).
    rewrite (added_app _ _ _ Ht). exact Hr.
Qed.


(** ** The worker loop *)

(** A transfer begins by opening a stream to the peer it is given. *)
Lemma send_opens_stream (env : SendEnv) (peer : Address) (ch : Chunk) (s : St) :
  exists rest,
    trace (snd (sendChunkAndReceiveReceipt env peer ch s)) =
      trace s ++ EvNewStream peer protocolName protocolVersion streamName :: rest.
Proof.
  unfold sendChunkAndReceiveReceipt. go_unfold. cbn.
  destruct (newStream_err env); cbn; [eexists; reflexivity|].
  destruct (retryChunks (ps s) !! _) as [n|]; cbn.
  - destruct (MaxRetries <? n)%Z; cbn;
      [eexists; trace_norm; reflexivity|].
    destruct (timeToWaitForReceipt <? write_took env)%Z; cbn;
      [eexists; trace_norm; reflexivity|].
    destruct (write_err env); cbn; [eexists; trace_norm; reflexivity|].
    destruct (read_res env); cbn; eexists; trace_norm; reflexivity.
  - destruct (timeToWaitForReceipt <? write_took env)%Z; cbn;
      [eexists; trace_norm; reflexivity|].
    destruct (write_err env); cbn; [eexists; trace_norm; reflexivity|].
    destruct (read_res env); cbn; eexists; trace_norm; reflexivity.
Qed.

(** A routing error other than want-self is dropped: nothing is logged
    for it and the transfer is started, towards whatever address came back
    with the error. *)
Lemma chunk_case_routing_error (env : ChunkEnv) (ch : Chunk) (s : St) (e : error) :
  snd (c_closest env) = Some e ->
  errors_Is e topology_ErrWantSelf = false ->
  exists rest,
    trace (snd (chunk_case env ch s)) =
      trace s ++
      [EvInc TotalChunksToBeSentCounter;
       EvClosestPeer (Chunk_Address ch);
       EvNewStream (fst (c_closest env)) protocolName protocolVersion streamName]
      ++ rest.
Proof.
  intros Hc He. unfold chunk_case. go_unfold. cbn.
  rewrite Hc. cbn. rewrite He. cbn.
  match goal with
  | |- context [sendChunkAndReceiveReceipt ?a ?b ?c ?d] =>
      destruct (send_opens_stream a b c d) as [rest Hrest];
      destruct (sendChunkAndReceiveReceipt a b c d) as [err s2]
  end.
  cbn in Hrest. cbn.
  destruct err; cbn.
  - eexists. rewrite Hrest. trace_norm. reflexivity.
  - destruct (c_set env); cbn;
      eexists; rewrite Hrest; trace_norm; reflexivity.
Qed.

(** C6 (the code at the failing input): the worker is handed the test
    chunk and the routing query fails with an error that is not want-self.
    The worker logs nothing, opens a stream to the zero address that came
    back with the error, sends the Delivery there and, the transfer
    succeeding, marks the chunk synced.  Whatever the error says and
    whatever address comes with it, the first thing the worker does after
    the query is to open a stream to that address. *)
Theorem C6_routing_error_still_transfers :
  (let run := chunksWorker [TimerC 0; RecvChunk testChunk env_routing_fails] fresh in
   snd (c_closest env_routing_fails) = Some (ErrOther "no peers") /\
   errors_Is (ErrOther "no peers") topology_ErrWantSelf = false /\
   option_map (fun r => trace (snd r)) run = Some
     [EvNewTimer 0;
      EvSubscribePush; EvTimerReset retryInterval; EvAdd MarkAndSweepTimer 0;
      EvInc TotalChunksToBeSentCounter;
      EvClosestPeer chunkAddress;
      EvNewStream ZeroAddress protocolName protocolVersion streamName;
      EvWriteDelivery timeToWaitForReceipt ZeroAddress testDelivery;
      EvAdd SendChunkTimer 0; EvInc ChunksSentCounter;
      EvReadReceipt ZeroAddress;
      EvAdd ReceiptRTT 0; EvInc ReceiptsReceivedCounter;
      EvStreamClose (Outbound ZeroAddress);
      EvSet ModeSetSyncPush chunkAddress;
      EvInc TotalChunksSynced] /\
   option_map (fun r => logged (trace (snd r))) run = Some [] /\
   option_map (fun r => deliveries_sent (trace (snd r))) run
     = Some [(ZeroAddress, testDelivery)]) /\
  (forall (msg : string) (peer : Address) (set : option error) (send : SendEnv)
          (ch : Chunk) (s : St),
     let env := mkChunkEnv (peer, Some (ErrOther msg)) set send in
     exists rest,
       added s (snd (chunk_case env ch s)) =
         [EvInc TotalChunksToBeSentCounter;
          EvClosestPeer (Chunk_Address ch);
          EvNewStream peer protocolName protocolVersion streamName] ++ rest).
Proof.
  split.
  - vm_compute. repeat split.
  - intros msg peer set send ch s env.
    destruct (chunk_case_routing_error env ch s (ErrOther msg) eq_refl eq_refl)
      as [rest Hrest].
    exists rest. apply added_app. exact Hrest.
Qed.

Lemma int_wrap_small (z : Z) : - 2 ^ 63 <= z < 2 ^ 63 -> int_wrap z = z.
Proof.
  intros H. unfold int_wrap. rewrite Z.mod_small; lia.
Qed.

(** [chunksInBatch] is set once, before the loop, and no case of the loop
    resets it: along any schedule it is the number of chunks received since
    the worker started, less one. *)
Lemma chunksInBatch_counts_since_start (evs : list Select) :
  forall (l : Locals) (s : St) (l' : Locals) (s' : St),
    chunksWorker_loop evs l s = Some (Running l', s') ->
    -1 <= chunksInBatch l ->
    chunksInBatch l + Z.of_nat (received evs) < 2 ^ 63 ->
    chunksInBatch l' = chunksInBatch l + Z.of_nat (received evs).
Proof.
  induction evs as [|ev rest IH]; intros l s l' s' Hrun Hlo Hhi.
  - cbn in Hrun. injection Hrun as <- <-. cbn. lia.
  - cbn [chunksWorker_loop] in Hrun.
    destruct (select_ready ev l s); [|discriminate].
    destruct ev as [ch env| |took|]; cbn [chunksWorker_iter] in Hrun.
    + cbn [received] in Hhi |- *.
      apply IH in Hrun; cbn [chunksInBatch] in *;
        rewrite int_wrap_small in * by lia; lia.
    + cbn [received] in Hhi |- *.
      apply IH in Hrun; cbn [chunksInBatch] in *; lia.
    + cbn [received] in Hhi |- *.
      apply IH in Hrun; cbn [chunksInBatch] in *; lia.
    + destruct rest; discriminate.
Qed.

(** Hence the delay chosen when a feed closes depends on the chunks of
    all batches so far: it is 500 ms exactly when one chunk has been
    received since the worker started. *)
Lemma feed_closed_delay (evs : list Select) (s0 : St) (l : Locals) (s : St) :
  chunksWorker_loop evs chunksWorker_locals s0 = Some (Running l, s) ->
  Z.of_nat (received evs) < 2 ^ 63 ->
  timer_resets (added s (snd (chunksWorker_iter RecvClosed l s))) =
    [if decide (received evs = 1%nat) then 500 * Millisecond else 0].
Proof.
  intros Hrun Hhi.
  apply chunksInBatch_counts_since_start in Hrun; cbn [chunksInBatch chunksWorker_locals];
    [|lia|lia].
  cbn [chunksInBatch chunksWorker_locals] in Hrun.
  cbn [chunksWorker_iter snd].
  erewrite added_app by (cbn [record trace]; reflexivity).
  cbn. repeat case_decide; try reflexivity; lia.
Qed.

(** C8 (the code at the failing inputs): the timer durations set along
    four schedules, [retryInterval] being the one set on subscribing.
    A first batch that is empty is followed by an immediate restart; a
    first batch of one chunk is followed by the 500 ms delay; after a
    batch of two chunks an empty second batch is followed by an immediate
    restart; and after a batch of one chunk a second batch of one chunk is
    followed by an immediate restart, the first by the delay.  In general
    the delay is 500 ms exactly when [chunksInBatch] is 0 at the close of
    the feed, and a new subscription leaves [chunksInBatch] as it is. *)
Theorem C8_delay_ignores_the_batch :
  (let c := RecvChunk testChunk env_routes_to_peer in
   worker_timer_resets [TimerC 0; RecvClosed]
     = Some [retryInterval; 0] /\
   worker_timer_resets [TimerC 0; c; RecvClosed]
     = Some [retryInterval; 500 * Millisecond] /\
   worker_timer_resets [TimerC 0; c; c; RecvClosed; TimerC 0; RecvClosed]
     = Some [retryInterval; 0; retryInterval; 0] /\
   worker_timer_resets [TimerC 0; c; RecvClosed; TimerC 0; c; RecvClosed]
     = Some [retryInterval; 500 * Millisecond; retryInterval; 0]) /\
  (forall (l : Locals) (s : St),
     timer_resets (added s (snd (chunksWorker_iter RecvClosed l s))) =
       [if decide (chunksInBatch l = 0) then 500 * Millisecond else 0]) /\
  (forall (l : Locals) (s : St) (took : Z),
     fst (chunksWorker_iter (TimerC took) l s) =
       Running (mkLocals true true (chunksInBatch l))).
Proof.
  split; [|split].
  - vm_compute. repeat split.
  - intros l s. cbn [chunksWorker_iter snd].
    erewrite added_app by (cbn [record trace]; reflexivity).
    reflexivity.
  - intros l s took. reflexivity.
Qed.

(** ** [Close] *)

(** C10: [Close] never returns an error: when it returns, it returns
    [nil], which it does exactly on an instance whose [quit] channel is
    open, as the one [New] makes is; it leaves that channel closed, and
    [Close] on the instance so left panics. *)
Theorem C10_Close_returns_nil_and_is_single_use :
  (forall p : PushSync,
     match Close p with
     | Done (err, p') =>
         err = None /\ quit p = chan_open /\
         retryChunks p' = retryChunks p /\ quit p' = chan_closed /\
         Close p' = Panic "close of closed channel"
     | Panic _ => quit p = chan_closed \/ quit p = chan_nil
     end) /\
  (forall o : Options,
     exists p', Close (New o) = Done (None, p') /\
                Close p' = Panic "close of closed channel").
Proof.
  split.
  - intros [m q]. destruct q; cbn; auto.
  - intros o. eexists. split; reflexivity.
Qed.

(** * Further properties of the code *)

(** ** [handler]: the paths that end early *)

Ltac handler_path :=
  unfold handler; go_unfold; cbn;
  repeat match goal with
         | H : _ = _ |- _ => rewrite H; cbn
         end;
  repeat split; try reflexivity;
  try (apply added_app; cbn [trace snd]; trace_norm; reflexivity).

(** X1: when the Delivery cannot be read the handler counts a receive
    error, makes no other call and closes the stream.  It returns [nil]
    only for the bare [io.EOF]: the error is compared with [==], so that an
    end of stream wrapped in another error is returned as an error. *)
Theorem handler_read_error (env : HandlerEnv) (p : Address) (s : St) (e : error) :
  h_read env = Err e ->
  fst (handler env p s) = (if decide (e = io_EOF) then None else Some e) /\
  added s (snd (handler env p s)) =
    [EvReadDelivery; EvInc ReceivedChunkErrorCounter; EvStreamClose Inbound] /\
  ps (snd (handler env p s)) = ps s.
Proof.
  intros Hr. unfold handler. go_unfold. cbn. rewrite Hr. cbn.
  destruct (decide (e = io_EOF)); cbn;
    (repeat split; try reflexivity;
     apply added_app; cbn [trace snd]; trace_norm; reflexivity).
Qed.

Lemma handler_read_error_witness :
  h_read env_read_wrapped_eof = Err (ErrWrap "read: " io_EOF) /\
  fst (handler env_read_wrapped_eof pivotNode fresh) =
    (if decide (ErrWrap "read: " io_EOF = io_EOF) then None
     else Some (ErrWrap "read: " io_EOF)) /\
  added fresh (snd (handler env_read_wrapped_eof pivotNode fresh)) =
    [EvReadDelivery; EvInc ReceivedChunkErrorCounter; EvStreamClose Inbound] /\
  ps (snd (handler env_read_wrapped_eof pivotNode fresh)) = ps fresh.
Proof.
  split; [reflexivity|].
  exact (handler_read_error env_read_wrapped_eof pivotNode fresh
           (ErrWrap "read: " io_EOF) eq_refl).
Defined.

(** X2: when storage refuses the chunk the handler returns the storage
    error as it is; no receipt is written, the routing is not asked and
    nothing is marked synced. *)
Theorem handler_put_error (env : HandlerEnv) (p : Address) (s : St)
    (d : Delivery) (e : error) :
  h_read env = Ok d ->
  h_put env = Some e ->
  fst (handler env p s) = Some e /\
  added s (snd (handler env p s)) =
    [EvReadDelivery; EvInc ChunksSentCounter;
     EvPut ModePutSync (NewChunk (NewAddress (Delivery_Address d)) (Delivery_Data d));
     EvStreamClose Inbound].
Proof.
  intros Hr Hp. handler_path.
Qed.

Lemma handler_put_error_witness :
  h_read env_put_fails = Ok testDelivery /\
  h_put env_put_fails = Some (ErrOther "disk full") /\
  fst (handler env_put_fails pivotNode fresh) = Some (ErrOther "disk full") /\
  added fresh (snd (handler env_put_fails pivotNode fresh)) =
    [EvReadDelivery; EvInc ChunksSentCounter;
     EvPut ModePutSync (NewChunk (NewAddress (Delivery_Address testDelivery))
                          (Delivery_Data testDelivery));
     EvStreamClose Inbound].
Proof.
  do 2 (split; [reflexivity|]).
  exact (handler_put_error env_put_fails pivotNode fresh testDelivery
           (ErrOther "disk full") eq_refl eq_refl).
Defined.

(** X3: when the receipt cannot be written the handler counts a
    send-receipt error and returns the write error; the chunk stays
    stored, the routing is not asked and nothing is marked synced. *)
Theorem handler_receipt_write_error (env : HandlerEnv) (p : Address) (s : St)
    (d : Delivery) (e : error) :
  h_read env = Ok d ->
  h_put env = None ->
  h_write env = Some e ->
  fst (handler env p s) = Some e /\
  added s (snd (handler env p s)) =
    [EvReadDelivery; EvInc ChunksSentCounter;
     EvPut ModePutSync (NewChunk (NewAddress (Delivery_Address d)) (Delivery_Data d));
     EvWriteReceipt (mkReceipt []); EvInc SendReceiptErrorCounter;
     EvStreamClose Inbound].
Proof.
  intros Hr Hp Hw. handler_path.
Qed.

Lemma handler_receipt_write_error_witness :
  h_read env_receipt_fails = Ok testDelivery /\
  h_put env_receipt_fails = None /\
  h_write env_receipt_fails = Some (ErrOther "stream reset") /\
  fst (handler env_receipt_fails pivotNode fresh) = Some (ErrOther "stream reset") /\
  added fresh (snd (handler env_receipt_fails pivotNode fresh)) =
    [EvReadDelivery; EvInc ChunksSentCounter;
     EvPut ModePutSync (NewChunk (NewAddress (Delivery_Address testDelivery))
                          (Delivery_Data testDelivery));
     EvWriteReceipt (mkReceipt []); EvInc SendReceiptErrorCounter;
     EvStreamClose Inbound].
Proof.
  do 3 (split; [reflexivity|]).
  exact (handler_receipt_write_error env_receipt_fails pivotNode fresh testDelivery
           (ErrOther "stream reset") eq_refl eq_refl eq_refl).
Defined.

(** X4: a routing error that is not want-self, not even wrapped, is
    returned to the transport as it is; by then the chunk is stored and
    acknowledged, and it is not marked synced. *)
Theorem handler_routing_error (env : HandlerEnv) (p : Address) (s : St)
    (d : Delivery) (e : error) :
  h_read env = Ok d ->
  h_put env = None ->
  h_write env = None ->
  snd (h_closest env) = Some e ->
  errors_Is e topology_ErrWantSelf = false ->
  fst (handler env p s) = Some e /\
  added s (snd (handler env p s)) =
    [EvReadDelivery; EvInc ChunksSentCounter;
     EvPut ModePutSync (NewChunk (NewAddress (Delivery_Address d)) (Delivery_Data d));
     EvWriteReceipt (mkReceipt []); EvInc ReceiptsSentCounter;
     EvClosestPeer (NewAddress (Delivery_Address d));
     EvStreamClose Inbound].
Proof.
  intros Hr Hp Hw Hc He. handler_path.
Qed.

Lemma handler_routing_error_witness :
  h_read env_handler_routing_fails = Ok testDelivery /\
  h_put env_handler_routing_fails = None /\
  h_write env_handler_routing_fails = None /\
  snd (h_closest env_handler_routing_fails) = Some (ErrOther "no peers") /\
  errors_Is (ErrOther "no peers") topology_ErrWantSelf = false /\
  fst (handler env_handler_routing_fails pivotNode fresh) = Some (ErrOther "no peers") /\
  added fresh (snd (handler env_handler_routing_fails pivotNode fresh)) =
    [EvReadDelivery; EvInc ChunksSentCounter;
     EvPut ModePutSync (NewChunk (NewAddress (Delivery_Address testDelivery))
                          (Delivery_Data testDelivery));
     EvWriteReceipt (mkReceipt []); EvInc ReceiptsSentCounter;
     EvClosestPeer (NewAddress (Delivery_Address testDelivery));
     EvStreamClose Inbound].
Proof.
  do 5 (split; [reflexivity|]).
  exact (handler_routing_error env_handler_routing_fails pivotNode fresh testDelivery
           (ErrOther "no peers") eq_refl eq_refl eq_refl eq_refl eq_refl).
Defined.

(** X5: when the routing names a peer the handler asks storage to mark
    the chunk synced and returns what storage answers.  A failure of that
    call is logged and counted, and the chunk is counted as synced all the
    same. *)
Theorem handler_set_outcome (env : HandlerEnv) (p : Address) (s : St) (d : Delivery) :
  h_read env = Ok d ->
  h_put env = None ->
  h_write env = None ->
  snd (h_closest env) = None ->
  fst (handler env p s) = h_set env /\
  added s (snd (handler env p s)) =
    [EvReadDelivery; EvInc ChunksSentCounter;
     EvPut ModePutSync (NewChunk (NewAddress (Delivery_Address d)) (Delivery_Data d));
     EvWriteReceipt (mkReceipt []); EvInc ReceiptsSentCounter;
     EvClosestPeer (NewAddress (Delivery_Address d));
     EvSet ModeSetSyncPush (NewAddress (Delivery_Address d))]
    ++ match h_set env with
       | Some _ => [EvLog "pushsync: error setting chunks to synced";
                    EvInc ErrorSettingChunkToSynced]
       | None => []
       end
    ++ [EvInc TotalChunksSynced; EvStreamClose Inbound].
Proof.
  intros Hr Hp Hw Hc. unfold handler. go_unfold. cbn.
  rewrite Hr. cbn. rewrite Hp. cbn. rewrite Hw. cbn. rewrite Hc. cbn.
  destruct (h_set env); cbn;
    (split; [reflexivity|];
     apply added_app; cbn [trace snd]; trace_norm; reflexivity).
Qed.

Lemma handler_set_outcome_witness :
  h_read env_set_fails = Ok testDelivery /\
  h_put env_set_fails = None /\
  h_write env_set_fails = None /\
  snd (h_closest env_set_fails) = None /\
  fst (handler env_set_fails pivotNode fresh) = h_set env_set_fails /\
  added fresh (snd (handler env_set_fails pivotNode fresh)) =
    [EvReadDelivery; EvInc ChunksSentCounter;
     EvPut ModePutSync (NewChunk (NewAddress (Delivery_Address testDelivery))
                          (Delivery_Data testDelivery));
     EvWriteReceipt (mkReceipt []); EvInc ReceiptsSentCounter;
     EvClosestPeer (NewAddress (Delivery_Address testDelivery));
     EvSet ModeSetSyncPush (NewAddress (Delivery_Address testDelivery))]
    ++ match h_set env_set_fails with
       | Some _ => [EvLog "pushsync: error setting chunks to synced";
                    EvInc ErrorSettingChunkToSynced]
       | None => []
       end
    ++ [EvInc TotalChunksSynced; EvStreamClose Inbound].
Proof.
  do 4 (split; [reflexivity|]).
  exact (handler_set_outcome env_set_fails pivotNode fresh testDelivery
           eq_refl eq_refl eq_refl eq_refl).
Defined.

(** ** [handler]: what holds on every path *)

Ltac handler_cases env :=
  unfold handler; go_unfold; cbn;
  destruct (h_read env) as [?d|?e] eqn:?Hr; cbn;
  [ destruct (h_put env) eqn:?Hp; cbn;
    [| destruct (h_write env) eqn:?Hw; cbn;
       [| destruct (snd (h_closest env)) as [?e|] eqn:?Hc; cbn;
          [ destruct (errors_Is _ topology_ErrWantSelf) eqn:?He; cbn
          | destruct (h_set env) eqn:?Hs; cbn ] ] ]
  | destruct (decide (_ = io_EOF)); cbn ];
  erewrite added_app by (cbn [trace snd]; trace_norm; reflexivity).

(** X6: whatever the collaborators answer, the handler closes the inbound
    stream exactly once, and that is the last thing it does. *)
Theorem handler_closes_stream_last (env : HandlerEnv) (p : Address) (s : St) :
  streams_closed (added s (snd (handler env p s))) = [Inbound] /\
  last (added s (snd (handler env p s))) = Some (EvStreamClose Inbound).
Proof.
  handler_cases env; split; reflexivity.
Qed.

(** X7: the handler acknowledges only what it has stored: if it writes a
    receipt, then a Delivery was read, storage accepted the chunk made of
    the Delivery's address and data unchanged, in the mode for synced
    chunks, and the receipt came after that. *)
Theorem handler_acknowledges_only_stored (env : HandlerEnv) (p : Address) (s : St) :
  receipts_written (added s (snd (handler env p s))) <> [] ->
  exists d rest,
    h_read env = Ok d /\
    h_put env = None /\
    added s (snd (handler env p s)) =
      [EvReadDelivery; EvInc ChunksSentCounter;
       EvPut ModePutSync (NewChunk (NewAddress (Delivery_Address d)) (Delivery_Data d));
       EvWriteReceipt (mkReceipt [])] ++ rest.
Proof.
  handler_cases env; cbn; intros H; try (exfalso; apply H; reflexivity);
    eexists _, _; (split; [reflexivity|]); (split; [reflexivity|]); reflexivity.
Qed.

Lemma handler_acknowledges_only_stored_witness :
  receipts_written (added fresh (snd (handler env_want_self pivotNode fresh))) <> [] /\
  exists d rest,
    h_read env_want_self = Ok d /\
    h_put env_want_self = None /\
    added fresh (snd (handler env_want_self pivotNode fresh)) =
      [EvReadDelivery; EvInc ChunksSentCounter;
       EvPut ModePutSync (NewChunk (NewAddress (Delivery_Address d)) (Delivery_Data d));
       EvWriteReceipt (mkReceipt [])] ++ rest.
Proof.
  assert (H : receipts_written
                (added fresh (snd (handler env_want_self pivotNode fresh))) <> [])
    by (vm_compute; discriminate).
  split; [exact H|].
  exact (handler_acknowledges_only_stored env_want_self pivotNode fresh H).
Defined.

(** ** [sendChunkAndReceiveReceipt]: the remaining paths *)

(** X8: when the stream cannot be opened the transfer returns the error
    wrapped as "new stream: ..." and does nothing else: nothing is
    written, no stream is closed, no counter moves, and the retry map is
    neither read nor changed, so that even an entry above [MaxRetries]
    stays. *)
Theorem transfer_stream_open_failure (env : SendEnv) (peer : Address) (ch : Chunk)
    (s : St) (e : error) :
  newStream_err env = Some e ->
  fst (sendChunkAndReceiveReceipt env peer ch s) = Some (ErrWrap "new stream: " e) /\
  added s (snd (sendChunkAndReceiveReceipt env peer ch s)) =
    [EvNewStream peer protocolName protocolVersion streamName] /\
  ps (snd (sendChunkAndReceiveReceipt env peer ch s)) = ps s.
Proof.
  intros H. rewrite (send_newStream_fails env peer ch s e H). cbn [fst snd].
  split; [reflexivity|]. split; [|reflexivity].
  apply added_app. reflexivity.
Qed.

Lemma transfer_stream_open_failure_witness :
  newStream_err peer_unreachable = Some (ErrOther "dial failed") /\
  fst (sendChunkAndReceiveReceipt peer_unreachable closestPeer testChunk
         (tracking chunkAddress 4))
    = Some (ErrWrap "new stream: " (ErrOther "dial failed")) /\
  added (tracking chunkAddress 4)
    (snd (sendChunkAndReceiveReceipt peer_unreachable closestPeer testChunk
            (tracking chunkAddress 4))) =
    [EvNewStream closestPeer protocolName protocolVersion streamName] /\
  ps (snd (sendChunkAndReceiveReceipt peer_unreachable closestPeer testChunk
             (tracking chunkAddress 4))) = ps (tracking chunkAddress 4).
Proof.
  split; [reflexivity|].
  exact (transfer_stream_open_failure peer_unreachable closestPeer testChunk
           (tracking chunkAddress 4) (ErrOther "dial failed") eq_refl).
Defined.

Ltac send_cases env s ch :=
  unfold sendChunkAndReceiveReceipt; go_unfold; cbn;
  destruct (newStream_err env) eqn:?Hn; cbn;
  [| destruct (retryChunks (ps s) !! Address_String (Chunk_Address ch)) as [?n|] eqn:?Hl;
     cbn;
     [ destruct (MaxRetries <? _)%Z eqn:?Hm; cbn;
       [| destruct (timeToWaitForReceipt <? write_took env)%Z eqn:?Ht; cbn;
          [| destruct (write_err env) eqn:?Hw; cbn;
             [| destruct (read_res env) eqn:?Hrd; cbn ] ] ]
     | destruct (timeToWaitForReceipt <? write_took env)%Z eqn:?Ht; cbn;
       [| destruct (write_err env) eqn:?Hw; cbn;
          [| destruct (read_res env) eqn:?Hrd; cbn ] ] ] ];
  erewrite added_app by (cbn [trace snd]; trace_norm; reflexivity).

(** X9: a transfer writes at most one Delivery, to the peer it was given
    and with the deadline [timeToWaitForReceipt], and the Delivery carries
    the chunk's address bytes and data unchanged.  It writes none exactly
    when the stream could not be opened or the retries are exhausted. *)
Theorem transfer_delivery_unmodified (env : SendEnv) (peer : Address) (ch : Chunk)
    (s : St) :
  let evs := added s (snd (sendChunkAndReceiveReceipt env peer ch s)) in
  let d := mkDelivery (Bytes (Chunk_Address ch)) (Chunk_Data ch) in
  deliveries_sent evs =
    match newStream_err env, retryChunks (ps s) !! Address_String (Chunk_Address ch) with
    | Some _, _ => []
    | None, Some n => if (MaxRetries <? n)%Z then [] else [(peer, d)]
    | None, None => [(peer, d)]
    end /\
  (In (EvWriteDelivery timeToWaitForReceipt peer d) evs \/ deliveries_sent evs = []).
Proof.
  send_cases env s ch; cbn; split; auto 10.
Qed.

(** X10: a stream that was opened is closed exactly once, as the last
    thing the transfer does, on every path; when it could not be opened
    nothing is closed. *)
Theorem transfer_closes_what_it_opened (env : SendEnv) (peer : Address) (ch : Chunk)
    (s : St) :
  let evs := added s (snd (sendChunkAndReceiveReceipt env peer ch s)) in
  streams_opened evs = [peer] /\
  match newStream_err env with
  | Some _ => streams_closed evs = []
  | None => streams_closed evs = [Outbound peer] /\
            last evs = Some (EvStreamClose (Outbound peer))
  end.
Proof.
  send_cases env s ch; cbn; auto.
Qed.

(** X11: when the write of the Delivery fails the transfer counts a
    send-chunk error and returns the write error as it is; it does not
    wait for a receipt, and the stream is closed. *)
Theorem transfer_write_failure (env : SendEnv) (peer : Address) (ch : Chunk)
    (s : St) (e : error) :
  newStream_err env = None ->
  (forall n, retryChunks (ps s) !! Address_String (Chunk_Address ch) = Some n ->
             n <= MaxRetries) ->
  write_took env <= timeToWaitForReceipt ->
  write_err env = Some e ->
  fst (sendChunkAndReceiveReceipt env peer ch s) = Some e /\
  added s (snd (sendChunkAndReceiveReceipt env peer ch s)) =
    [EvNewStream peer protocolName protocolVersion streamName;
     EvWriteDelivery timeToWaitForReceipt peer
       (mkDelivery (Bytes (Chunk_Address ch)) (Chunk_Data ch));
     EvInc SendChunkErrorCounter;
     EvStreamClose (Outbound peer)].
Proof.
  intros Hn Hle Ht Hw.
  send_cases env s ch; try discriminate.
  - apply Z.ltb_lt in Hm. specialize (Hle _ eq_refl). lia.
  - apply Z.ltb_lt in Ht0. lia.
  - injection Hw as ->. split; reflexivity.
  - apply Z.ltb_lt in Ht0. lia.
  - injection Hw as ->. split; reflexivity.
Qed.

Lemma transfer_write_failure_witness :
  newStream_err peer_write_fails = None /\
  (forall n, retryChunks (ps fresh) !! Address_String (Chunk_Address testChunk) = Some n ->
             n <= MaxRetries) /\
  write_took peer_write_fails <= timeToWaitForReceipt /\
  write_err peer_write_fails = Some (ErrOther "stream reset") /\
  fst (sendChunkAndReceiveReceipt peer_write_fails closestPeer testChunk fresh)
    = Some (ErrOther "stream reset") /\
  added fresh (snd (sendChunkAndReceiveReceipt peer_write_fails closestPeer testChunk fresh)) =
    [EvNewStream closestPeer protocolName protocolVersion streamName;
     EvWriteDelivery timeToWaitForReceipt closestPeer
       (mkDelivery (Bytes (Chunk_Address testChunk)) (Chunk_Data testChunk));
     EvInc SendChunkErrorCounter;
     EvStreamClose (Outbound closestPeer)].
Proof.
  assert (H2 : forall n,
             retryChunks (ps fresh) !! Address_String (Chunk_Address testChunk) = Some n ->
             n <= MaxRetries)
    by (intros n; vm_compute; discriminate).
  assert (H3 : write_took peer_write_fails <= timeToWaitForReceipt)
    by (vm_compute; discriminate).
  split; [reflexivity|]. split; [exact H2|]. split; [exact H3|].
  split; [reflexivity|].
  exact (transfer_write_failure peer_write_fails closestPeer testChunk fresh
           (ErrOther "stream reset") eq_refl H2 H3 eq_refl).
Defined.

(** X12: when the receipt cannot be read the transfer counts a
    receive-receipt error and returns the read error as it is; by then the
    Delivery has been written and counted as sent, and the time of the send
    has been recorded. *)
Theorem transfer_read_failure (env : SendEnv) (peer : Address) (ch : Chunk)
    (s : St) (e : error) :
  newStream_err env = None ->
  (forall n, retryChunks (ps s) !! Address_String (Chunk_Address ch) = Some n ->
             n <= MaxRetries) ->
  write_took env <= timeToWaitForReceipt ->
  write_err env = None ->
  read_res env = Err e ->
  fst (sendChunkAndReceiveReceipt env peer ch s) = Some e /\
  added s (snd (sendChunkAndReceiveReceipt env peer ch s)) =
    [EvNewStream peer protocolName protocolVersion streamName;
     EvWriteDelivery timeToWaitForReceipt peer
       (mkDelivery (Bytes (Chunk_Address ch)) (Chunk_Data ch));
     EvAdd SendChunkTimer (newStream_took env + write_took env);
     EvInc ChunksSentCounter;
     EvReadReceipt peer;
     EvInc ReceiveReceiptErrorCounter;
     EvStreamClose (Outbound peer)].
Proof.
  intros Hn Hle Ht Hw Hr.
  send_cases env s ch; try discriminate.
  - apply Z.ltb_lt in Hm. specialize (Hle _ eq_refl). lia.
  - apply Z.ltb_lt in Ht0. lia.
  - injection Hr as ->. split; [reflexivity|]. do 3 f_equal. f_equal. lia.
  - apply Z.ltb_lt in Ht0. lia.
  - injection Hr as ->. split; [reflexivity|]. do 3 f_equal. f_equal. lia.
Qed.

Lemma transfer_read_failure_witness :
  newStream_err peer_silent = None /\
  (forall n, retryChunks (ps fresh) !! Address_String (Chunk_Address testChunk) = Some n ->
             n <= MaxRetries) /\
  write_took peer_silent <= timeToWaitForReceipt /\
  write_err peer_silent = None /\
  read_res peer_silent = Err io_EOF /\
  fst (sendChunkAndReceiveReceipt peer_silent closestPeer testChunk fresh) = Some io_EOF /\
  added fresh (snd (sendChunkAndReceiveReceipt peer_silent closestPeer testChunk fresh)) =
    [EvNewStream closestPeer protocolName protocolVersion streamName;
     EvWriteDelivery timeToWaitForReceipt closestPeer
       (mkDelivery (Bytes (Chunk_Address testChunk)) (Chunk_Data testChunk));
     EvAdd SendChunkTimer (newStream_took peer_silent + write_took peer_silent);
     EvInc ChunksSentCounter;
     EvReadReceipt closestPeer;
     EvInc ReceiveReceiptErrorCounter;
     EvStreamClose (Outbound closestPeer)].
Proof.
  assert (H2 : forall n,
             retryChunks (ps fresh) !! Address_String (Chunk_Address testChunk) = Some n ->
             n <= MaxRetries)
    by (intros n; vm_compute; discriminate).
  assert (H3 : write_took peer_silent <= timeToWaitForReceipt)
    by (vm_compute; discriminate).
  split; [reflexivity|]. split; [exact H2|]. split; [exact H3|].
  do 2 (split; [reflexivity|]).
  exact (transfer_read_failure peer_silent closestPeer testChunk fresh io_EOF
           eq_refl H2 H3 eq_refl eq_refl).
Defined.

(** X13: a transfer touches the retry entry of its own chunk only: the
    entry of every other address is after the call what it was before. *)
Theorem transfer_tracker_frame (env : SendEnv) (peer : Address) (ch : Chunk)
    (s : St) (k : string) :
  k <> Address_String (Chunk_Address ch) ->
  retryChunks (ps (snd (sendChunkAndReceiveReceipt env peer ch s))) !! k =
    retryChunks (ps s) !! k.
Proof.
  intros Hk. rewrite send_tracker.
  destruct (newStream_err env); [reflexivity|].
  destruct (retryChunks (ps s) !! Address_String (Chunk_Address ch)) as [n|].
  - destruct (MaxRetries <? n)%Z; [|reflexivity].
    apply lookup_delete_ne. congruence.
  - apply lookup_insert_ne. congruence.
Qed.

Lemma transfer_tracker_frame_witness :
  Address_String pivotNode <> Address_String (Chunk_Address testChunk) /\
  retryChunks (ps (snd (sendChunkAndReceiveReceipt (peer_ok chunkAddress 0 0)
                          closestPeer testChunk (tracking pivotNode 7))))
    !! Address_String pivotNode =
    retryChunks (ps (tracking pivotNode 7)) !! Address_String pivotNode.
Proof.
  assert (H : Address_String pivotNode <> Address_String (Chunk_Address testChunk))
    by (vm_compute; discriminate).
  split; [exact H|].
  exact (transfer_tracker_frame (peer_ok chunkAddress 0 0) closestPeer testChunk
           (tracking pivotNode 7) (Address_String pivotNode) H).
Defined.

(** X14: the first transfer for an address registers it: when the stream
    opens and the map holds no entry for the chunk's address, the map holds
    0 for it after the call, whether the transfer then succeeds or
    fails. *)
Theorem transfer_first_attempt_registers (env : SendEnv) (peer : Address)
    (ch : Chunk) (s : St) :
  newStream_err env = None ->
  retryChunks (ps s) !! Address_String (Chunk_Address ch) = None ->
  retryChunks (ps (snd (sendChunkAndReceiveReceipt env peer ch s)))
    !! Address_String (Chunk_Address ch) = Some 0.
Proof.
  intros Hn Hl. rewrite send_tracker, Hn, Hl. apply lookup_insert_eq.
Qed.

Lemma transfer_first_attempt_registers_witness :
  newStream_err peer_write_fails = None /\
  retryChunks (ps fresh) !! Address_String (Chunk_Address testChunk) = None /\
  retryChunks (ps (snd (sendChunkAndReceiveReceipt peer_write_fails closestPeer
                          testChunk fresh)))
    !! Address_String (Chunk_Address testChunk) = Some 0.
Proof.
  assert (H : retryChunks (ps fresh) !! Address_String (Chunk_Address testChunk) = None)
    by (vm_compute; reflexivity).
  split; [reflexivity|]. split; [exact H|].
  exact (transfer_first_attempt_registers peer_write_fails closestPeer testChunk
           fresh eq_refl H).
Defined.

(** X15: the receipt is read and not looked at: whatever address the
    receipt carries, that of the chunk or any other, the transfer does the
    same and returns the same. *)
Theorem transfer_ignores_receipt_content (env : SendEnv) (peer : Address)
    (ch : Chunk) (s : St) (r r' : Receipt) :
  read_res env = Ok r ->
  sendChunkAndReceiveReceipt env peer ch s =
  sendChunkAndReceiveReceipt
    (mkSendEnv (newStream_err env) (newStream_took env)
               (write_err env) (write_took env) (Ok r') (read_took env))
    peer ch s.
Proof.
  intros Hr. unfold sendChunkAndReceiveReceipt. go_unfold. cbn. rewrite Hr.
  destruct (newStream_err env); [reflexivity|]. cbn.
  destruct (retryChunks (ps s) !! _) as [n|]; cbn.
  - destruct (MaxRetries <? n)%Z; cbn; [reflexivity|].
    destruct (timeToWaitForReceipt <? write_took env)%Z; cbn; [reflexivity|].
    destruct (write_err env); reflexivity.
  - destruct (timeToWaitForReceipt <? write_took env)%Z; cbn; [reflexivity|].
    destruct (write_err env); reflexivity.
Qed.

Lemma transfer_ignores_receipt_content_witness :
  read_res (peer_ok chunkAddress 0 0) = Ok (mkReceipt (Bytes chunkAddress)) /\
  sendChunkAndReceiveReceipt (peer_ok chunkAddress 0 0) closestPeer testChunk fresh =
  sendChunkAndReceiveReceipt
    (mkSendEnv (newStream_err (peer_ok chunkAddress 0 0))
               (newStream_took (peer_ok chunkAddress 0 0))
               (write_err (peer_ok chunkAddress 0 0))
               (write_took (peer_ok chunkAddress 0 0))
               (Ok (mkReceipt (Bytes pivotNode)))
               (read_took (peer_ok chunkAddress 0 0)))
    closestPeer testChunk fresh.
Proof.
  split; [reflexivity|].
  exact (transfer_ignores_receipt_content (peer_ok chunkAddress 0 0) closestPeer
           testChunk fresh (mkReceipt (Bytes chunkAddress))
           (mkReceipt (Bytes pivotNode)) eq_refl).
Defined.

(** ** [chunksWorker]: one chunk *)

(** What a transfer adds to the trace does not concern storage, the log
    or the subscription, and a transfer that returns [nil] has read the
    receipt. *)
Lemma send_events (env : SendEnv) (peer : Address) (ch : Chunk) (s : St) :
  exists evs,
    trace (snd (sendChunkAndReceiveReceipt env peer ch s)) = trace s ++ evs /\
    set_synced evs = [] /\
    logged evs = [] /\
    forallb (fun e => negb (is_subscription_event e)) evs = true /\
    (fst (sendChunkAndReceiveReceipt env peer ch s) = None ->
     In (EvReadReceipt peer) evs).
Proof.
  unfold sendChunkAndReceiveReceipt. go_unfold. cbn.
  destruct (newStream_err env); cbn;
    [eexists; split; [reflexivity|]; repeat split; discriminate|].
  destruct (retryChunks (ps s) !! _) as [n|]; cbn.
  - destruct (MaxRetries <? n)%Z; cbn;
      [eexists; split; [trace_norm; reflexivity|]; repeat split; discriminate|].
    destruct (timeToWaitForReceipt <? write_took env)%Z; cbn;
      [eexists; split; [trace_norm; reflexivity|]; repeat split; discriminate|].
    destruct (write_err env); cbn;
      [eexists; split; [trace_norm; reflexivity|]; repeat split; discriminate|].
    destruct (read_res env); cbn;
      eexists; (split; [trace_norm; reflexivity|]); repeat split;
      try discriminate; intros _; cbn; auto 10.
  - destruct (timeToWaitForReceipt <? write_took env)%Z; cbn;
      [eexists; split; [trace_norm; reflexivity|]; repeat split; discriminate|].
    destruct (write_err env); cbn;
      [eexists; split; [trace_norm; reflexivity|]; repeat split; discriminate|].
    destruct (read_res env); cbn;
      eexists; (split; [trace_norm; reflexivity|]); repeat split;
      try discriminate; intros _; cbn; auto 10.
Qed.

(** What a transfer returns depends on the instance and the peer, not on
    the trace or the clock. *)
Lemma send_fst_indep (env : SendEnv) (peer : Address) (ch : Chunk) (s : St)
    (t : list Event) (n : Z) :
  fst (sendChunkAndReceiveReceipt env peer ch (mkSt (ps s) t n)) =
  fst (sendChunkAndReceiveReceipt env peer ch s).
Proof.
  unfold sendChunkAndReceiveReceipt. go_unfold. cbn.
  destruct (newStream_err env); [reflexivity|]. cbn.
  destruct (retryChunks (ps s) !! _) as [m|]; cbn.
  - destruct (MaxRetries <? m)%Z; cbn; [reflexivity|].
    destruct (timeToWaitForReceipt <? write_took env)%Z; cbn; [reflexivity|].
    destruct (write_err env); cbn; [reflexivity|].
    destruct (read_res env); reflexivity.
  - destruct (timeToWaitForReceipt <? write_took env)%Z; cbn; [reflexivity|].
    destruct (write_err env); cbn; [reflexivity|].
    destruct (read_res env); reflexivity.
Qed.

(** X16: when the routing reports want-self, bare or wrapped, the worker
    asks storage to mark the chunk synced and goes on to the next chunk:
    no stream is opened, the instance is not touched, and the chunk is not
    counted as synced; a failure of the marking is logged and nothing
    else. *)
Theorem worker_want_self (env : ChunkEnv) (ch : Chunk) (s : St) (e : error) :
  snd (c_closest env) = Some e ->
  errors_Is e topology_ErrWantSelf = true ->
  added s (snd (chunk_case env ch s)) =
    [EvInc TotalChunksToBeSentCounter;
     EvClosestPeer (Chunk_Address ch);
     EvSet ModeSetSyncPush (Chunk_Address ch)]
    ++ match c_set env with
       | Some _ => [EvLog "pushsync: error setting chunks to synced"]
       | None => []
       end /\
  ps (snd (chunk_case env ch s)) = ps s.
Proof.
  intros Hc He. unfold chunk_case. go_unfold. cbn.
  rewrite Hc. cbn. rewrite He. cbn.
  destruct (c_set env); cbn;
    (split; [apply added_app; cbn [trace snd]; trace_norm; reflexivity|reflexivity]).
Qed.

Lemma worker_want_self_witness :
  snd (c_closest env_self_closest)
    = Some (ErrWrap "closest peer: " topology_ErrWantSelf) /\
  errors_Is (ErrWrap "closest peer: " topology_ErrWantSelf) topology_ErrWantSelf = true /\
  added fresh (snd (chunk_case env_self_closest testChunk fresh)) =
    [EvInc TotalChunksToBeSentCounter;
     EvClosestPeer (Chunk_Address testChunk);
     EvSet ModeSetSyncPush (Chunk_Address testChunk)]
    ++ match c_set env_self_closest with
       | Some _ => [EvLog "pushsync: error setting chunks to synced"]
       | None => []
       end /\
  ps (snd (chunk_case env_self_closest testChunk fresh)) = ps fresh.
Proof.
  do 2 (split; [reflexivity|]).
  exact (worker_want_self env_self_closest testChunk fresh
           (ErrWrap "closest peer: " topology_ErrWantSelf) eq_refl eq_refl).
Defined.

(** X17: when the routing does not report want-self and the transfer
    returns an error, the worker logs the failure as the last thing it
    does for the chunk; storage is not asked to mark the chunk synced, so
    that the chunk stays pending. *)
Theorem worker_transfer_failure (env : ChunkEnv) (ch : Chunk) (s : St) (e : error) :
  (forall e', snd (c_closest env) = Some e' ->
              errors_Is e' topology_ErrWantSelf = false) ->
  fst (sendChunkAndReceiveReceipt (c_send env) (fst (c_closest env)) ch s) = Some e ->
  set_synced (added s (snd (chunk_case env ch s))) = [] /\
  last (added s (snd (chunk_case env ch s))) =
    Some (EvLog "error while sending chunk or receiving receipt").
Proof.
  intros Hc Hsend. unfold chunk_case. go_unfold. cbn.
  assert (Hskip : match snd (c_closest env) with
                  | Some e' => errors_Is e' topology_ErrWantSelf = false
                  | None => True
                  end).
  { destruct (snd (c_closest env)); [apply Hc; reflexivity|exact I]. }
  destruct (snd (c_closest env)) as [e'|]; [rewrite Hskip|]; cbn;
    match goal with
    | |- context [sendChunkAndReceiveReceipt ?a ?b ?c (mkSt (ps s) ?t ?n)] =>
        pose proof (send_fst_indep a b c s t n) as Hi;
        destruct (send_events a b c (mkSt (ps s) t n))
          as (evs & Ht & Hs & _ & _ & _);
        destruct (sendChunkAndReceiveReceipt a b c (mkSt (ps s) t n)) as [r s2]
    end;
    cbn in Hi, Ht; rewrite Hsend in Hi; subst r; cbn;
    (erewrite added_app by (cbn [trace snd record]; rewrite Ht; trace_norm; reflexivity));
    (split;
     [ cbn; unfold set_synced in *; rewrite omap_app, Hs; reflexivity
     | change (?a :: ?b :: ?l) with ([a; b] ++ l); rewrite app_assoc;
       apply last_snoc ]).
Qed.

Lemma worker_transfer_failure_witness :
  (forall e', snd (c_closest env_transfer_fails) = Some e' ->
              errors_Is e' topology_ErrWantSelf = false) /\
  fst (sendChunkAndReceiveReceipt (c_send env_transfer_fails)
         (fst (c_closest env_transfer_fails)) testChunk fresh)
    = Some (ErrOther "stream reset") /\
  set_synced (added fresh (snd (chunk_case env_transfer_fails testChunk fresh))) = [] /\
  last (added fresh (snd (chunk_case env_transfer_fails testChunk fresh))) =
    Some (EvLog "error while sending chunk or receiving receipt").
Proof.
  assert (H1 : forall e', snd (c_closest env_transfer_fails) = Some e' ->
                          errors_Is e' topology_ErrWantSelf = false)
    by (intros e'; cbn; discriminate).
  assert (H2 : fst (sendChunkAndReceiveReceipt (c_send env_transfer_fails)
                      (fst (c_closest env_transfer_fails)) testChunk fresh)
               = Some (ErrOther "stream reset"))
    by (vm_compute; reflexivity).
  split; [exact H1|]. split; [exact H2|].
  exact (worker_transfer_failure env_transfer_fails testChunk fresh
           (ErrOther "stream reset") H1 H2).
Defined.

(** X18: when the routing does not report want-self and the transfer
    returns [nil], the worker asks storage to mark the chunk synced, once
    and after the transfer with its read of the receipt is over.  The
    chunk is counted as synced when storage accepts; otherwise the failure
    is logged and counted. *)
Theorem worker_transfer_success (env : ChunkEnv) (ch : Chunk) (s : St) :
  (forall e', snd (c_closest env) = Some e' ->
              errors_Is e' topology_ErrWantSelf = false) ->
  fst (sendChunkAndReceiveReceipt (c_send env) (fst (c_closest env)) ch s) = None ->
  exists evs,
    added s (snd (chunk_case env ch s)) =
      [EvInc TotalChunksToBeSentCounter; EvClosestPeer (Chunk_Address ch)]
      ++ evs
      ++ EvSet ModeSetSyncPush (Chunk_Address ch)
         :: match c_set env with
            | Some _ => [EvLog "pushsync: error setting chunks to synced";
                         EvInc ErrorSettingChunkToSynced]
            | None => [EvInc TotalChunksSynced]
            end /\
    In (EvReadReceipt (fst (c_closest env))) evs /\
    set_synced evs = [].
Proof.
  intros Hc Hsend. unfold chunk_case. go_unfold. cbn.
  assert (Hskip : match snd (c_closest env) with
                  | Some e' => errors_Is e' topology_ErrWantSelf = false
                  | None => True
                  end).
  { destruct (snd (c_closest env)); [apply Hc; reflexivity|exact I]. }
  destruct (snd (c_closest env)) as [e'|]; [rewrite Hskip|]; cbn;
    match goal with
    | |- context [sendChunkAndReceiveReceipt ?a ?b ?c (mkSt (ps s) ?t ?n)] =>
        pose proof (send_fst_indep a b c s t n) as Hi;
        destruct (send_events a b c (mkSt (ps s) t n))
          as (evs & Ht & Hs & _ & _ & Hread);
        destruct (sendChunkAndReceiveReceipt a b c (mkSt (ps s) t n)) as [r s2]
    end;
    cbn in Hi, Ht, Hread; rewrite Hsend in Hi; subst r; cbn;
    exists evs;
    (split; [|split; [apply Hread; reflexivity|exact Hs]]);
    destruct (c_set env); cbn;
    apply added_app; cbn [trace snd record]; rewrite Ht; trace_norm; reflexivity.
Qed.

Lemma worker_transfer_success_witness :
  (forall e', snd (c_closest env_worker_set_fails) = Some e' ->
              errors_Is e' topology_ErrWantSelf = false) /\
  fst (sendChunkAndReceiveReceipt (c_send env_worker_set_fails)
         (fst (c_closest env_worker_set_fails)) testChunk fresh) = None /\
  exists evs,
    added fresh (snd (chunk_case env_worker_set_fails testChunk fresh)) =
      [EvInc TotalChunksToBeSentCounter; EvClosestPeer (Chunk_Address testChunk)]
      ++ evs
      ++ EvSet ModeSetSyncPush (Chunk_Address testChunk)
         :: match c_set env_worker_set_fails with
            | Some _ => [EvLog "pushsync: error setting chunks to synced";
                         EvInc ErrorSettingChunkToSynced]
            | None => [EvInc TotalChunksSynced]
            end /\
    In (EvReadReceipt (fst (c_closest env_worker_set_fails))) evs /\
    set_synced evs = [].
Proof.
  assert (H1 : forall e', snd (c_closest env_worker_set_fails) = Some e' ->
                          errors_Is e' topology_ErrWantSelf = false)
    by (intros e'; cbn; discriminate).
  assert (H2 : fst (sendChunkAndReceiveReceipt (c_send env_worker_set_fails)
                      (fst (c_closest env_worker_set_fails)) testChunk fresh) = None)
    by (vm_compute; reflexivity).
  split; [exact H1|]. split; [exact H2|].
  exact (worker_transfer_success env_worker_set_fails testChunk fresh H1 H2).
Defined.

(** ** [chunksWorker]: the loop *)

(** What the worker does for one chunk: the events it adds do not concern
    the subscription, and the instance is left as it was or as a transfer
    for that chunk leaves it. *)
Lemma chunk_case_shape (env : ChunkEnv) (ch : Chunk) (s : St) :
  (exists evs,
     trace (snd (chunk_case env ch s)) = trace s ++ evs /\
     forallb (fun e => negb (is_subscription_event e)) evs = true) /\
  (ps (snd (chunk_case env ch s)) = ps s \/
   exists peer s1,
     ps s1 = ps s /\
     ps (snd (chunk_case env ch s)) =
       ps (snd (sendChunkAndReceiveReceipt (c_send env) peer ch s1))).
Proof.
  unfold chunk_case. go_unfold. cbn.
  assert (Hall : forall (a b : list Event),
             forallb (fun e => negb (is_subscription_event e)) a = true ->
             forallb (fun e => negb (is_subscription_event e)) b = true ->
             forallb (fun e => negb (is_subscription_event e)) (a ++ b) = true).
  { intros a b Ha Hb. rewrite forallb_app, Ha, Hb. reflexivity. }
  destruct (snd (c_closest env)) as [e|]; cbn;
    [destruct (errors_Is e topology_ErrWantSelf); cbn|].
  - destruct (c_set env); cbn;
      (split; [eexists; split; [trace_norm; reflexivity|reflexivity]|left; reflexivity]).
  - match goal with
    | |- context [sendChunkAndReceiveReceipt ?a ?b ?c ?d] =>
        destruct (send_events a b c d) as (evs & Ht & _ & _ & Hn & _);
        assert (Hps : exists peer s1, ps s1 = ps s /\
                  ps (snd (sendChunkAndReceiveReceipt a b c d)) =
                  ps (snd (sendChunkAndReceiveReceipt (c_send env) peer ch s1)))
          by (eexists _, _; split; [|reflexivity]; reflexivity);
        destruct (sendChunkAndReceiveReceipt a b c d) as [r s2]
    end.
    cbn in Ht, Hps. destruct r; cbn; [|destruct (c_set env); cbn];
      (split;
       [ eexists; split;
         [ rewrite Ht; trace_norm; reflexivity
         | apply (Hall [_; _]);
           [ reflexivity | apply Hall; [exact Hn|reflexivity] ] ]
       | right; exact Hps ]).
  - match goal with
    | |- context [sendChunkAndReceiveReceipt ?a ?b ?c ?d] =>
        destruct (send_events a b c d) as (evs & Ht & _ & _ & Hn & _);
        assert (Hps : exists peer s1, ps s1 = ps s /\
                  ps (snd (sendChunkAndReceiveReceipt a b c d)) =
                  ps (snd (sendChunkAndReceiveReceipt (c_send env) peer ch s1)))
          by (eexists _, _; split; [|reflexivity]; reflexivity);
        destruct (sendChunkAndReceiveReceipt a b c d) as [r s2]
    end.
    cbn in Ht, Hps. destruct r; cbn; [|destruct (c_set env); cbn];
      (split;
       [ eexists; split;
         [ rewrite Ht; trace_norm; reflexivity
         | apply (Hall [_; _]);
           [ reflexivity | apply Hall; [exact Hn|reflexivity] ] ]
       | right; exact Hps ]).
Qed.

Lemma chunk_case_quit (env : ChunkEnv) (ch : Chunk) (s : St) :
  quit (ps (snd (chunk_case env ch s))) = quit (ps s).
Proof.
  destruct (chunk_case_shape env ch s) as [_ [H|(peer & s1 & H1 & H)]];
    rewrite H; [reflexivity|].
  rewrite send_quit, H1. reflexivity.
Qed.

Lemma chunk_case_all_zero (env : ChunkEnv) (ch : Chunk) (s : St) :
  all_zero (retryChunks (ps s)) ->
  all_zero (retryChunks (ps (snd (chunk_case env ch s)))).
Proof.
  intros Hz.
  destruct (chunk_case_shape env ch s) as [_ [H|(peer & s1 & H1 & H)]];
    rewrite H; [exact Hz|].
  apply send_all_zero. rewrite H1. exact Hz.
Qed.

Lemma timer_case_ps (l : Locals) (took : Z) (s : St) :
  ps (snd (timer_case l took s)) = ps s.
Proof.
  unfold timer_case. go_unfold. cbn. destruct (unsubscribe l); reflexivity.
Qed.

Lemma iter_ps (ev : Select) (l : Locals) (s : St) :
  quit (ps (snd (chunksWorker_iter ev l s))) = quit (ps s) /\
  (all_zero (retryChunks (ps s)) ->
   all_zero (retryChunks (ps (snd (chunksWorker_iter ev l s))))).
Proof.
  destruct ev as [ch env| |took|]; cbn [chunksWorker_iter snd].
  - split; [apply chunk_case_quit|apply chunk_case_all_zero].
  - split; [reflexivity|auto].
  - rewrite timer_case_ps. split; [reflexivity|auto].
  - destruct (unsubscribe l); split; auto.
Qed.

Lemma loop_ps (evs : list Select) :
  forall (l : Locals) (s : St) (w : Worker) (s' : St),
    chunksWorker_loop evs l s = Some (w, s') ->
    quit (ps s') = quit (ps s) /\
    (all_zero (retryChunks (ps s)) -> all_zero (retryChunks (ps s'))).
Proof.
  induction evs as [|ev rest IH]; intros l s w s' Hrun.
  - cbn in Hrun. injection Hrun as <- <-. auto.
  - cbn [chunksWorker_loop] in Hrun.
    destruct (select_ready ev l s); [|discriminate].
    destruct (iter_ps ev l s) as [Hq Hz].
    destruct (chunksWorker_iter ev l s) as [[l'|] s1]; cbn [snd] in Hq, Hz.
    + apply IH in Hrun. destruct Hrun as [Hq' Hz'].
      split; [congruence|auto].
    + destruct rest; [|discriminate]. injection Hrun as <- <-. auto.
Qed.

(** X19: along any schedule the worker leaves the [quit] channel alone,
    and from a retry map that holds only zeros, as the one [New] makes
    does, it leaves a retry map that holds only zeros: under the worker no
    count ever rises. *)
Theorem worker_keeps_instance (evs : list Select) (s : St) (w : Worker) (s' : St) :
  all_zero (retryChunks (ps s)) ->
  chunksWorker evs s = Some (w, s') ->
  quit (ps s') = quit (ps s) /\ all_zero (retryChunks (ps s')).
Proof.
  intros Hz Hrun. unfold chunksWorker in Hrun.
  destruct (chunksWorker_loop evs chunksWorker_locals (record (EvNewTimer 0) s))
    as [[w1 s1]|] eqn:Hloop; [|discriminate].
  apply loop_ps in Hloop. cbn in Hloop. destruct Hloop as [Hq Hz'].
  destruct w1; injection Hrun as <- <-; cbn; auto.
Qed.

Lemma worker_keeps_instance_witness :
  all_zero (retryChunks (ps fresh)) /\
  chunksWorker [TimerC 0; RecvChunk testChunk env_transfer_fails] fresh =
    Some (Running (mkLocals true true 0),
          snd (chunksWorker_iter (RecvChunk testChunk env_transfer_fails)
                 (mkLocals true true (-1))
                 (snd (chunksWorker_iter (TimerC 0) chunksWorker_locals
                         (record (EvNewTimer 0) fresh))))) /\
  quit (ps (snd (chunksWorker_iter (RecvChunk testChunk env_transfer_fails)
                   (mkLocals true true (-1))
                   (snd (chunksWorker_iter (TimerC 0) chunksWorker_locals
                           (record (EvNewTimer 0) fresh)))))) = quit (ps fresh) /\
  all_zero (retryChunks
              (ps (snd (chunksWorker_iter (RecvChunk testChunk env_transfer_fails)
                          (mkLocals true true (-1))
                          (snd (chunksWorker_iter (TimerC 0) chunksWorker_locals
                                  (record (EvNewTimer 0) fresh))))))).
Proof.
  assert (H1 : all_zero (retryChunks (ps fresh))) by (apply (New_all_zero mkOptions)).
  assert (H2 : chunksWorker [TimerC 0; RecvChunk testChunk env_transfer_fails] fresh =
    Some (Running (mkLocals true true 0),
          snd (chunksWorker_iter (RecvChunk testChunk env_transfer_fails)
                 (mkLocals true true (-1))
                 (snd (chunksWorker_iter (TimerC 0) chunksWorker_locals
                         (record (EvNewTimer 0) fresh))))))
    by (vm_compute; reflexivity).
  split; [exact H1|]. split; [exact H2|].
  exact (worker_keeps_instance _ _ _ _ H1 H2).
Defined.

Lemma subscriptions_ok_app (a b : list Event) :
  forall o, subscriptions_ok (a ++ b) o =
            match subscriptions_ok a o with
            | Some o' => subscriptions_ok b o'
            | None => None
            end.
Proof.
  induction a as [|e a IH]; intros o; [reflexivity|].
  destruct e; cbn; try apply IH; destruct o; try reflexivity; apply IH.
Qed.

Lemma subscriptions_ok_other (evs : list Event) :
  forallb (fun e => negb (is_subscription_event e)) evs = true ->
  forall o, subscriptions_ok evs o = Some o.
Proof.
  induction evs as [|e evs IH]; intros H o; [reflexivity|].
  cbn in H. apply andb_prop in H. destruct H as [He H].
  destruct e; cbn in He |- *; try discriminate; apply IH; exact H.
Qed.

Lemma iter_subscriptions (ev : Select) (l : Locals) (s : St) :
  subscriptions_ok (trace s) false = Some (unsubscribe l) ->
  subscriptions_ok (trace (snd (chunksWorker_iter ev l s))) false =
    Some match fst (chunksWorker_iter ev l s) with
         | Running l' => unsubscribe l'
         | Exited => false
         end.
Proof.
  intros H. destruct ev as [ch env| |took|]; cbn [chunksWorker_iter fst snd unsubscribe].
  - destruct (chunk_case_shape env ch s) as [(evs & Ht & Hn) _].
    rewrite Ht, subscriptions_ok_app, H. apply subscriptions_ok_other, Hn.
  - cbn. rewrite subscriptions_ok_app, H. reflexivity.
  - unfold timer_case. go_unfold. cbn.
    destruct (unsubscribe l); cbn;
      repeat rewrite subscriptions_ok_app; rewrite H; reflexivity.
  - destruct (unsubscribe l); cbn; [|exact H].
    rewrite subscriptions_ok_app, H. reflexivity.
Qed.

Lemma loop_subscriptions (evs : list Select) :
  forall (l : Locals) (s : St) (w : Worker) (s' : St),
    chunksWorker_loop evs l s = Some (w, s') ->
    subscriptions_ok (trace s) false = Some (unsubscribe l) ->
    subscriptions_ok (trace s') false =
      Some match w with
           | Running l' => unsubscribe l'
           | Exited => false
           end.
Proof.
  induction evs as [|ev rest IH]; intros l s w s' Hrun H.
  - cbn in Hrun. injection Hrun as <- <-. exact H.
  - cbn [chunksWorker_loop] in Hrun.
    destruct (select_ready ev l s); [|discriminate].
    pose proof (iter_subscriptions ev l s H) as Hi.
    destruct (chunksWorker_iter ev l s) as [[l'|] s1]; cbn [fst snd] in Hi.
    + eapply IH; eassumption.
    + destruct rest; [|discriminate]. injection Hrun as <- <-. exact Hi.
Qed.

(** X20: in the trace of the worker subscribing and unsubscribing
    alternate, beginning with a subscription: along any schedule
    [SubscribePush] is called only while no subscription is open and
    [unsubscribe] only on an open one, so that at no moment two are open;
    a subscription is open after the run exactly when [unsubscribe] is
    set, and none is open once the worker has returned. *)
Theorem worker_subscriptions_alternate (evs : list Select) (s : St) (w : Worker)
    (s' : St) :
  subscriptions_ok (trace s) false = Some false ->
  chunksWorker evs s = Some (w, s') ->
  subscriptions_ok (trace s') false =
    Some match w with
         | Running l => unsubscribe l
         | Exited => false
         end.
Proof.
  intros H Hrun. unfold chunksWorker in Hrun.
  destruct (chunksWorker_loop evs chunksWorker_locals (record (EvNewTimer 0) s))
    as [[w1 s1]|] eqn:Hloop; [|discriminate].
  apply loop_subscriptions in Hloop;
    [|cbn; rewrite subscriptions_ok_app, H; reflexivity].
  destruct w1; injection Hrun as <- <-; [exact Hloop|].
  cbn. rewrite subscriptions_ok_app, Hloop. reflexivity.
Qed.

Lemma worker_subscriptions_alternate_witness :
  subscriptions_ok (trace closed_instance) false = Some false /\
  chunksWorker [TimerC 0; RecvChunk testChunk env_transfer_fails; TimerC 5; Quit]
    closed_instance =
    Some (Exited,
          mkSt (mkPushSync {[ Address_String chunkAddress := 0 ]} chan_closed)
               [EvNewTimer 0;
                EvSubscribePush; EvTimerReset retryInterval; EvAdd MarkAndSweepTimer 0;
                EvInc TotalChunksToBeSentCounter; EvClosestPeer chunkAddress;
                EvNewStream closestPeer protocolName protocolVersion streamName;
                EvWriteDelivery timeToWaitForReceipt closestPeer testDelivery;
                EvInc SendChunkErrorCounter;
                EvStreamClose (Outbound closestPeer);
                EvLog "error while sending chunk or receiving receipt";
                EvUnsubscribe;
                EvSubscribePush; EvTimerReset retryInterval; EvAdd MarkAndSweepTimer 5;
                EvUnsubscribe; EvTimerStop] 5) /\
  subscriptions_ok
    [EvNewTimer 0;
     EvSubscribePush; EvTimerReset retryInterval; EvAdd MarkAndSweepTimer 0;
     EvInc TotalChunksToBeSentCounter; EvClosestPeer chunkAddress;
     EvNewStream closestPeer protocolName protocolVersion streamName;
     EvWriteDelivery timeToWaitForReceipt closestPeer testDelivery;
     EvInc SendChunkErrorCounter;
     EvStreamClose (Outbound closestPeer);
     EvLog "error while sending chunk or receiving receipt";
     EvUnsubscribe;
     EvSubscribePush; EvTimerReset retryInterval; EvAdd MarkAndSweepTimer 5;
     EvUnsubscribe; EvTimerStop] false = Some false.
Proof.
  assert (H1 : subscriptions_ok (trace closed_instance) false = Some false)
    by reflexivity.
  assert (H2 : chunksWorker
                 [TimerC 0; RecvChunk testChunk env_transfer_fails; TimerC 5; Quit]
                 closed_instance =
    Some (Exited,
          mkSt (mkPushSync {[ Address_String chunkAddress := 0 ]} chan_closed)
               [EvNewTimer 0;
                EvSubscribePush; EvTimerReset retryInterval; EvAdd MarkAndSweepTimer 0;
                EvInc TotalChunksToBeSentCounter; EvClosestPeer chunkAddress;
                EvNewStream closestPeer protocolName protocolVersion streamName;
                EvWriteDelivery timeToWaitForReceipt closestPeer testDelivery;
                EvInc SendChunkErrorCounter;
                EvStreamClose (Outbound closestPeer);
                EvLog "error while sending chunk or receiving receipt";
                EvUnsubscribe;
                EvSubscribePush; EvTimerReset retryInterval; EvAdd MarkAndSweepTimer 5;
                EvUnsubscribe; EvTimerStop] 5))
    by (vm_compute; reflexivity).
  split; [exact H1|]. split; [exact H2|].
  exact (worker_subscriptions_alternate _ _ _ _ H1 H2).
Defined.

Lemma loop_exit_quit (evs : list Select) :
  forall (l : Locals) (s s' : St),
    chunksWorker_loop evs l s = Some (Exited, s') ->
    quit (ps s) = chan_closed.
Proof.
  induction evs as [|ev rest IH]; intros l s s' Hrun; [discriminate|].
  cbn [chunksWorker_loop] in Hrun.
  destruct (select_ready ev l s) eqn:Hready; [|discriminate].
  destruct (iter_ps ev l s) as [Hq _].
  destruct (chunksWorker_iter ev l s) as [[l'|] s1] eqn:Hiter; cbn [snd] in Hq.
  - apply IH in Hrun. congruence.
  - destruct ev; cbn in Hiter; try discriminate.
    cbn in Hready. destruct (decide (quit (ps s) = chan_closed)); [assumption|discriminate].
Qed.

(** X21: the worker returns only through the [quit] channel: if it has
    returned, then [quit] was closed, that is [Close] had been called, and
    the last thing it did was to stop its timer.  On an instance whose
    [quit] channel is open no schedule makes it return. *)
Theorem worker_returns_only_on_quit (evs : list Select) (s s' : St) :
  chunksWorker evs s = Some (Exited, s') ->
  quit (ps s) = chan_closed /\ last (trace s') = Some EvTimerStop.
Proof.
  intros Hrun. unfold chunksWorker in Hrun.
  destruct (chunksWorker_loop evs chunksWorker_locals (record (EvNewTimer 0) s))
    as [[w1 s1]|] eqn:Hloop; [|discriminate].
  destruct w1; [discriminate|]. injection Hrun as <-.
  apply loop_exit_quit in Hloop. cbn in Hloop.
  split; [exact Hloop|]. cbn. apply last_snoc.
Qed.

Lemma worker_returns_only_on_quit_witness :
  chunksWorker [TimerC 0; Quit] closed_instance =
    Some (Exited,
          mkSt (ps closed_instance)
               [EvNewTimer 0;
                EvSubscribePush; EvTimerReset retryInterval; EvAdd MarkAndSweepTimer 0;
                EvUnsubscribe; EvTimerStop] 0) /\
  quit (ps closed_instance) = chan_closed /\
  last [EvNewTimer 0;
        EvSubscribePush; EvTimerReset retryInterval; EvAdd MarkAndSweepTimer 0;
        EvUnsubscribe; EvTimerStop] = Some EvTimerStop.
Proof.
  assert (H : chunksWorker [TimerC 0; Quit] closed_instance =
    Some (Exited,
          mkSt (ps closed_instance)
               [EvNewTimer 0;
                EvSubscribePush; EvTimerReset retryInterval; EvAdd MarkAndSweepTimer 0;
                EvUnsubscribe; EvTimerStop] 0))
    by (vm_compute; reflexivity).
  split; [exact H|].
  exact (worker_returns_only_on_quit _ _ _ H).
Defined.

(** The stream a transfer opens is the one the instance registers:
    [Protocol] announces one stream, served by [handler], and every
    transfer begins by opening a stream with that protocol name, version
    and stream name. *)
Theorem transfer_opens_registered_stream (p : PushSync) (env : SendEnv)
    (peer : Address) (ch : Chunk) (s : St) :
  exists spec,
    ProtocolSpec_StreamSpecs (Protocol p) = [spec] /\
    StreamSpec_Handler spec = handler /\
    head (added s (snd (sendChunkAndReceiveReceipt env peer ch s))) =
      Some (EvNewStream peer (ProtocolSpec_Name (Protocol p))
              (ProtocolSpec_Version (Protocol p)) (StreamSpec_Name spec)).
Proof.
  eexists. split; [reflexivity|]. split; [reflexivity|].
  destruct (send_opens_stream env peer ch s) as [rest Hrest].
  rewrite (added_app _ _ _ Hrest). reflexivity.
Qed.

(** * Package [discovery/mock]: the [Peerer] *)

Lemma ByteString_inj (a b : Address) : mock.ByteString a = mock.ByteString b -> a = b.
Proof.
  unfold mock.ByteString. intros H.
  apply (f_equal list_byte_of_string) in H.
  rewrite !list_byte_of_string_of_list_byte in H.
  destruct a, b. cbn in H. congruence.
Qed.

(** What [Peers] gives for a bin, said with the content of the bin. *)
Lemma Peers_bin (p : mock.Peerer) (peer : mock.Peer) (bin limit : Z) :
  mock.Peers p peer bin limit =
    if decide (limit < 0) then Panic "slice bounds out of range"
    else Done (if decide (limit = 0) then mock.bin_of p peer bin
               else take (Z.to_nat limit) (mock.bin_of p peer bin)).
Proof.
  unfold mock.Peers.
  destruct (decide (limit <> 0)) as [Hne|He].
  - destruct (decide (limit > Z.of_nat (length (mock.bin_of p peer bin)))) as [Hgt|Hle].
    + destruct (decide (Z.of_nat (length (mock.bin_of p peer bin)) < 0)); [lia|].
      destruct (decide (limit < 0)); [lia|].
      destruct (decide (limit = 0)); [lia|].
      f_equal. rewrite Nat2Z.id. rewrite !take_ge; [reflexivity|lia|lia].
    + destruct (decide (limit < 0)); [reflexivity|].
      destruct (decide (limit = 0)); [lia|reflexivity].
  - destruct (decide (limit < 0)); [lia|].
    destruct (decide (limit = 0)); [reflexivity|lia].
Qed.

Lemma bin_of_Add (p : mock.Peerer) (peer : mock.Peer) (bin : Z)
    (new : list mock.Peer) (peer' : mock.Peer) (bin' : Z) :
  mock.bin_of (mock.Add p peer bin new) peer' bin' =
    if decide (mock.Peer_Address peer' = mock.Peer_Address peer /\ bin' = bin)
    then mock.bin_of p peer bin ++ new
    else mock.bin_of p peer' bin'.
Proof.
  unfold mock.bin_of, mock.Add. cbn.
  destruct (decide (mock.Peer_Address peer' = mock.Peer_Address peer /\ bin' = bin))
    as [[Ha ->]|Hn].
  - rewrite Ha, lookup_insert_eq. cbn. rewrite lookup_insert_eq. cbn.
    destruct (mock.peers p !! mock.ByteString (mock.Peer_Address peer)); reflexivity.
  - destruct (decide (mock.ByteString (mock.Peer_Address peer)
                      = mock.ByteString (mock.Peer_Address peer'))) as [He|Hne].
    + rewrite He, lookup_insert_eq. cbn.
      assert (Hb : bin <> bin').
      { intros ->. apply Hn. split; [|reflexivity]. symmetry.
        apply ByteString_inj. exact He. }
      rewrite lookup_insert_ne by exact Hb.
      destruct (mock.peers p !! mock.ByteString (mock.Peer_Address peer'));
        reflexivity.
    + rewrite lookup_insert_ne by exact Hne. reflexivity.
Qed.

(** X22: a new [Peerer] knows no peers: for every peer, bin and limit
    that is not negative [Peers] gives the empty slice; with a negative
    limit it panics on the slice expression, even on the empty
    [Peerer]. *)
Theorem Peers_of_NewPeerer (peer : mock.Peer) (bin limit : Z) :
  mock.Peers mock.NewPeerer peer bin limit =
    if decide (limit < 0) then Panic "slice bounds out of range" else Done [].
Proof.
  rewrite Peers_bin.
  assert (H : mock.bin_of mock.NewPeerer peer bin = []).
  { unfold mock.bin_of. cbn. rewrite lookup_empty. cbn. rewrite lookup_empty.
    reflexivity. }
  rewrite H. destruct (decide (limit < 0)); [reflexivity|].
  destruct (decide (limit = 0)); [reflexivity|]. rewrite take_nil. reflexivity.
Qed.

(** X23: [Add] appends: the peers of a bin, read in full after an [Add]
    to it, are those that were there followed by the added ones in the
    order given. *)
Theorem Peers_after_Add (p : mock.Peerer) (peer : mock.Peer) (bin : Z)
    (old new : list mock.Peer) :
  mock.Peers p peer bin 0 = Done old ->
  mock.Peers (mock.Add p peer bin new) peer bin 0 = Done (old ++ new).
Proof.
  rewrite !Peers_bin. cbn. intros [= <-]. rewrite bin_of_Add.
  destruct (decide (mock.Peer_Address peer = mock.Peer_Address peer /\ bin = bin))
    as [_|Hn]; [reflexivity|].
  exfalso. apply Hn. split; reflexivity.
Qed.

Lemma Peers_after_Add_witness :
  mock.Peers (mock.Add mock.NewPeerer (mock.somePeer x01) 3 [mock.somePeer x02])
    (mock.somePeer x01) 3 0 = Done [mock.somePeer x02] /\
  mock.Peers (mock.Add (mock.Add mock.NewPeerer (mock.somePeer x01) 3 [mock.somePeer x02])
                (mock.somePeer x01) 3 [mock.somePeer x03; mock.somePeer x04])
    (mock.somePeer x01) 3 0
  = Done ([mock.somePeer x02] ++ [mock.somePeer x03; mock.somePeer x04]).
Proof.
  assert (H : mock.Peers (mock.Add mock.NewPeerer (mock.somePeer x01) 3
                            [mock.somePeer x02]) (mock.somePeer x01) 3 0
              = Done [mock.somePeer x02]) by (vm_compute; reflexivity).
  split; [exact H|].
  exact (Peers_after_Add _ (mock.somePeer x01) 3 [mock.somePeer x02]
           [mock.somePeer x03; mock.somePeer x04] H).
Defined.

(** X24: [Add] changes one bin of one peer: what [Peers] gives for
    another peer, or for another bin of the same peer, is what it gave
    before, for every limit. *)
Theorem Peers_Add_elsewhere (p : mock.Peerer) (peer : mock.Peer) (bin : Z)
    (new : list mock.Peer) (peer' : mock.Peer) (bin' limit : Z) :
  mock.Peer_Address peer' <> mock.Peer_Address peer \/ bin' <> bin ->
  mock.Peers (mock.Add p peer bin new) peer' bin' limit = mock.Peers p peer' bin' limit.
Proof.
  intros Hd. rewrite !Peers_bin, bin_of_Add.
  destruct (decide (mock.Peer_Address peer' = mock.Peer_Address peer /\ bin' = bin))
    as [[Ha Hb]|_]; [|reflexivity].
  destruct Hd; contradiction.
Qed.

Lemma Peers_Add_elsewhere_witness :
  (mock.Peer_Address (mock.somePeer x01) <> mock.Peer_Address (mock.somePeer x01)
   \/ 4 <> 3) /\
  mock.Peers (mock.Add mock.NewPeerer (mock.somePeer x01) 3 [mock.somePeer x02])
    (mock.somePeer x01) 4 0
  = mock.Peers mock.NewPeerer (mock.somePeer x01) 4 0.
Proof.
  assert (H : mock.Peer_Address (mock.somePeer x01)
              <> mock.Peer_Address (mock.somePeer x01) \/ 4 <> 3)
    by (right; discriminate).
  split; [exact H|].
  exact (Peers_Add_elsewhere mock.NewPeerer (mock.somePeer x01) 3
           [mock.somePeer x02] (mock.somePeer x01) 4 0 H).
Defined.

(** X25: a positive limit cuts the answer: [Peers] gives the first
    [limit] peers of the bin, all of them when the bin holds no more than
    [limit]; the answer is never longer than the limit. *)
Theorem Peers_limit (p : mock.Peerer) (peer : mock.Peer) (bin limit : Z)
    (all : list mock.Peer) :
  mock.Peers p peer bin 0 = Done all ->
  0 < limit ->
  mock.Peers p peer bin limit = Done (take (Z.to_nat limit) all) /\
  Z.of_nat (length (take (Z.to_nat limit) all)) = Z.min limit (Z.of_nat (length all)).
Proof.
  rewrite !Peers_bin. cbn. intros [= <-] Hpos.
  destruct (decide (limit < 0)); [lia|].
  destruct (decide (limit = 0)); [lia|].
  split; [reflexivity|]. rewrite length_take. lia.
Qed.

Lemma Peers_limit_witness :
  mock.Peers (mock.Add mock.NewPeerer (mock.somePeer x01) 3
                [mock.somePeer x02; mock.somePeer x03; mock.somePeer x04])
    (mock.somePeer x01) 3 0
  = Done [mock.somePeer x02; mock.somePeer x03; mock.somePeer x04] /\
  0 < 2 /\
  mock.Peers (mock.Add mock.NewPeerer (mock.somePeer x01) 3
                [mock.somePeer x02; mock.somePeer x03; mock.somePeer x04])
    (mock.somePeer x01) 3 2
  = Done (take (Z.to_nat 2) [mock.somePeer x02; mock.somePeer x03; mock.somePeer x04]) /\
  Z.of_nat (length (take (Z.to_nat 2)
                      [mock.somePeer x02; mock.somePeer x03; mock.somePeer x04]))
  = Z.min 2 (Z.of_nat (length [mock.somePeer x02; mock.somePeer x03; mock.somePeer x04])).
Proof.
  assert (H1 : mock.Peers (mock.Add mock.NewPeerer (mock.somePeer x01) 3
                    [mock.somePeer x02; mock.somePeer x03; mock.somePeer x04])
                 (mock.somePeer x01) 3 0
               = Done [mock.somePeer x02; mock.somePeer x03; mock.somePeer x04])
    by (vm_compute; reflexivity).
  assert (H2 : 0 < 2) by reflexivity.
  split; [exact H1|]. split; [exact H2|].
  exact (Peers_limit _ (mock.somePeer x01) 3 2 _ H1 H2).
Defined.

(** X26: a negative limit makes [Peers] panic, whatever the [Peerer]
    holds: the limit is only lowered to the length, never raised to 0,
    before it is used as the upper bound of the slice. *)
Theorem Peers_negative_limit_panics (p : mock.Peerer) (peer : mock.Peer)
    (bin limit : Z) :
  limit < 0 ->
  mock.Peers p peer bin limit = Panic "slice bounds out of range".
Proof.
  intros H. rewrite Peers_bin. destruct (decide (limit < 0)); [reflexivity|lia].
Qed.

Lemma Peers_negative_limit_panics_witness :
  -1 < 0 /\
  mock.Peers (mock.Add mock.NewPeerer (mock.somePeer x01) 3 [mock.somePeer x02])
    (mock.somePeer x01) 3 (-1) = Panic "slice bounds out of range".
Proof.
  assert (H : -1 < 0) by reflexivity.
  split; [exact H|].
  exact (Peers_negative_limit_panics _ (mock.somePeer x01) 3 (-1) H).
Defined.

(** X27: two [Add]s to the same bin are one [Add] of the two lists
    joined: the [Peerer] they leave is the same. *)
Theorem Add_twice (p : mock.Peerer) (peer : mock.Peer) (bin : Z)
    (a b : list mock.Peer) :
  mock.Add (mock.Add p peer bin a) peer bin b = mock.Add p peer bin (a ++ b).
Proof.
  unfold mock.Add. cbn. rewrite lookup_insert_eq. cbn.
  rewrite lookup_insert_eq. cbn. rewrite !insert_insert_eq.
  rewrite app_assoc. reflexivity.
Qed.

(** * Package [file/splitter]: [Split] *)

Lemma int64_small (z : Z) : - 2 ^ 63 <= z < 2 ^ 63 -> splitter.int64 z = z.
Proof.
  intros H. unfold splitter.int64. rewrite Z.mod_small; lia.
Qed.

Lemma size_nonneg (chunks : list bytes) : 0 <= splitter.size chunks.
Proof. unfold splitter.size. lia. Qed.

Lemma size_cons (c : bytes) (chunks : list bytes) :
  splitter.size (c :: chunks) = Z.of_nat (length c) + splitter.size chunks.
Proof.
  unfold splitter.size. cbn. rewrite length_app. lia.
Qed.

Section SplitProofs.
Variable jobWrite : list bytes -> bytes -> Z * option error.
Variable jobSum : list bytes -> bytes.

(** Reads without error that the job accepts in full are written one by
    one, in order, and added to the total. *)
Lemma Split_loop_plain (chunks : list bytes) :
  forall (rest : list (bytes * option error)) (dataLength total : Z) (w : list bytes),
    (forall pre data post, chunks = pre ++ data :: post ->
       jobWrite (w ++ pre) data = (Z.of_nat (length data), None)) ->
    0 <= total ->
    total + splitter.size chunks < 2 ^ 63 ->
    splitter.Split_loop jobWrite jobSum (splitter.plain chunks ++ rest) dataLength total w =
    splitter.Split_loop jobWrite jobSum rest dataLength (total + splitter.size chunks)
      (w ++ chunks).
Proof.
  induction chunks as [|c cs IH]; intros rest dataLength total w Hj Hlo Hhi.
  - cbn. rewrite app_nil_r. f_equal. unfold splitter.size. cbn. lia.
  - rewrite size_cons in Hhi |- *. pose proof (size_nonneg cs) as Hcs.
    cbn [splitter.plain map app splitter.Split_loop].
    rewrite int64_small by lia.
    pose proof (Hj [] c cs eq_refl) as Hc. rewrite app_nil_r in Hc. rewrite Hc.
    destruct (Z.ltb_spec (Z.of_nat (length c)) (Z.of_nat (length c))); [lia|].
    fold (splitter.plain cs). rewrite IH.
    + rewrite <- app_assoc. cbn. f_equal. lia.
    + intros pre data post ->. rewrite <- app_assoc. cbn.
      apply (Hj (c :: pre) data post). reflexivity.
    + lia.
    + lia.
Qed.

(** X28: when the reader delivers the chunks without error and then ends
    with [io.EOF], the job accepts every write in full and no fewer than
    [dataLength] bytes were read, [Split] returns the job's sum over
    exactly those chunks, in order.  Bytes that [Read] returns together
    with [io.EOF] are counted but never written, and more bytes than
    [dataLength] are not an error. *)
Theorem Split_complete (chunks : list bytes) (last : bytes) (dataLength : Z) :
  splitter.takes_all jobWrite ->
  splitter.size chunks + Z.of_nat (length last) < 2 ^ 63 ->
  dataLength <= splitter.size chunks + Z.of_nat (length last) ->
  splitter.Split jobWrite jobSum (splitter.plain chunks ++ [(last, Some io_EOF)]) dataLength =
    Some (splitter.mkOutcome chunks (NewAddress (jobSum chunks)) None).
Proof.
  intros Hall Hhi Hlen. unfold splitter.Split.
  pose proof (size_nonneg chunks) as Hs.
  rewrite Split_loop_plain; [|intros; apply Hall|lia|lia].
  cbn [app splitter.Split_loop]. rewrite Z.add_0_l. rewrite int64_small by lia.
  destruct (decide (io_EOF = io_EOF)); [|congruence].
  destruct (Z.ltb_spec (splitter.size chunks + Z.of_nat (length last)) dataLength);
    [lia|reflexivity].
Qed.

(** X29: when the reader ends with [io.EOF] before [dataLength] bytes
    were read, [Split] returns the zero address and the short-data error.
    The number of bytes the error reports counts the last read twice: it
    is the total, which includes that read, plus its count again. *)
Theorem Split_short (chunks : list bytes) (last : bytes) (dataLength : Z) :
  splitter.takes_all jobWrite ->
  splitter.size chunks + 2 * Z.of_nat (length last) < 2 ^ 63 ->
  splitter.size chunks + Z.of_nat (length last) < dataLength ->
  splitter.Split jobWrite jobSum (splitter.plain chunks ++ [(last, Some io_EOF)]) dataLength =
    Some (splitter.mkOutcome chunks ZeroAddress
            (Some (splitter.ErrShortData
                     (splitter.size chunks + 2 * Z.of_nat (length last)) dataLength))).
Proof.
  intros Hall Hhi Hlen. unfold splitter.Split.
  pose proof (size_nonneg chunks) as Hs.
  rewrite Split_loop_plain; [|intros; apply Hall|lia|lia].
  cbn [app splitter.Split_loop]. rewrite Z.add_0_l. rewrite int64_small by lia.
  destruct (decide (io_EOF = io_EOF)); [|congruence].
  destruct (Z.ltb_spec (splitter.size chunks + Z.of_nat (length last)) dataLength);
    [|lia].
  rewrite int64_small by lia. do 4 f_equal. lia.
Qed.

(** X30: a read error that is not [io.EOF], or a write that the job refuses
    or cuts short, ends [Split] at once with the zero address: nothing
    more is read or written, whatever the reader still holds. *)
Theorem Split_stops_at_first_failure (chunks : list bytes) (data : bytes)
    (rerr : option error) (rest : list (bytes * option error)) (dataLength : Z) :
  (forall pre d post, chunks = pre ++ d :: post ->
     jobWrite pre d = (Z.of_nat (length d), None)) ->
  splitter.size chunks + Z.of_nat (length data) < 2 ^ 63 ->
  match rerr with
  | Some e => e <> io_EOF
  | None => snd (jobWrite chunks data) <> None \/
            fst (jobWrite chunks data) < Z.of_nat (length data)
  end ->
  splitter.Split jobWrite jobSum (splitter.plain chunks ++ (data, rerr) :: rest) dataLength =
    Some (match rerr with
          | Some e => splitter.mkOutcome chunks ZeroAddress (Some (splitter.ErrPassed e))
          | None =>
              splitter.mkOutcome (chunks ++ [data]) ZeroAddress
                (Some (match snd (jobWrite chunks data) with
                       | Some e => splitter.ErrPassed e
                       | None => splitter.ErrWriteCount (fst (jobWrite chunks data))
                                   (Z.of_nat (length data))
                       end))
          end).
Proof.
  intros Hj Hhi Hfail. unfold splitter.Split.
  pose proof (size_nonneg chunks) as Hs.
  rewrite Split_loop_plain; [|exact Hj|lia|lia].
  cbn [app splitter.Split_loop]. rewrite Z.add_0_l.
  destruct rerr as [e|].
  - destruct (decide (e = io_EOF)); [contradiction|reflexivity].
  - destruct (jobWrite chunks data) as [cc werr]. cbn [fst snd] in *.
    destruct werr as [e|]; [reflexivity|].
    destruct Hfail as [Hf|Hf]; [contradiction|].
    destruct (Z.ltb_spec cc (Z.of_nat (length data))); [reflexivity|lia].
Qed.

End SplitProofs.

Lemma Split_complete_witness :
  splitter.takes_all splitter.writeAll /\
  splitter.size [[x31; x32]; [x33]] + Z.of_nat (length [x34]) < 2 ^ 63 /\
  3 <= splitter.size [[x31; x32]; [x33]] + Z.of_nat (length [x34]) /\
  splitter.Split splitter.writeAll splitter.sumConcat
    (splitter.plain [[x31; x32]; [x33]] ++ [([x34], Some io_EOF)]) 3 =
    Some (splitter.mkOutcome [[x31; x32]; [x33]]
            (NewAddress (splitter.sumConcat [[x31; x32]; [x33]])) None).
Proof.
  assert (H1 : splitter.takes_all splitter.writeAll) by (intros w d; reflexivity).
  assert (H2 : splitter.size [[x31; x32]; [x33]] + Z.of_nat (length [x34]) < 2 ^ 63)
    by (vm_compute; reflexivity).
  assert (H3 : 3 <= splitter.size [[x31; x32]; [x33]] + Z.of_nat (length [x34]))
    by (vm_compute; discriminate).
  split; [exact H1|]. split; [exact H2|]. split; [exact H3|].
  exact (Split_complete splitter.writeAll splitter.sumConcat
           [[x31; x32]; [x33]] [x34] 3 H1 H2 H3).
Defined.

Lemma Split_short_witness :
  splitter.takes_all splitter.writeAll /\
  splitter.size [[x31; x32]] + 2 * Z.of_nat (length [x33]) < 2 ^ 63 /\
  splitter.size [[x31; x32]] + Z.of_nat (length [x33]) < 10 /\
  splitter.Split splitter.writeAll splitter.sumConcat
    (splitter.plain [[x31; x32]] ++ [([x33], Some io_EOF)]) 10 =
    Some (splitter.mkOutcome [[x31; x32]] ZeroAddress
            (Some (splitter.ErrShortData
                     (splitter.size [[x31; x32]] + 2 * Z.of_nat (length [x33])) 10))).
Proof.
  assert (H1 : splitter.takes_all splitter.writeAll) by (intros w d; reflexivity).
  assert (H2 : splitter.size [[x31; x32]] + 2 * Z.of_nat (length [x33]) < 2 ^ 63)
    by (vm_compute; reflexivity).
  assert (H3 : splitter.size [[x31; x32]] + Z.of_nat (length [x33]) < 10)
    by (vm_compute; reflexivity).
  split; [exact H1|]. split; [exact H2|]. split; [exact H3|].
  exact (Split_short splitter.writeAll splitter.sumConcat
           [[x31; x32]] [x33] 10 H1 H2 H3).
Defined.

Lemma Split_stops_at_first_failure_witness :
  (forall pre d post, [[x31]] = pre ++ d :: post ->
     splitter.acceptOnce pre d = (Z.of_nat (length d), None)) /\
  splitter.size [[x31]] + Z.of_nat (length [x32]) < 2 ^ 63 /\
  (snd (splitter.acceptOnce [[x31]] [x32]) <> None \/
   fst (splitter.acceptOnce [[x31]] [x32]) < Z.of_nat (length [x32])) /\
  splitter.Split splitter.acceptOnce splitter.sumConcat
    (splitter.plain [[x31]] ++ ([x32], None) :: [([x33], None); ([], Some io_EOF)]) 3 =
    Some (splitter.mkOutcome ([[x31]] ++ [[x32]]) ZeroAddress
            (Some (match snd (splitter.acceptOnce [[x31]] [x32]) with
                   | Some e => splitter.ErrPassed e
                   | None => splitter.ErrWriteCount
                               (fst (splitter.acceptOnce [[x31]] [x32]))
                               (Z.of_nat (length [x32]))
                   end))).
Proof.
  assert (H1 : forall pre d post, [[x31]] = pre ++ d :: post ->
                 splitter.acceptOnce pre d = (Z.of_nat (length d), None)).
  { intros pre d post H. destruct pre as [|c pre]; [reflexivity|].
    destruct pre; discriminate. }
  assert (H2 : splitter.size [[x31]] + Z.of_nat (length [x32]) < 2 ^ 63)
    by (vm_compute; reflexivity).
  assert (H3 : snd (splitter.acceptOnce [[x31]] [x32]) <> None \/
               fst (splitter.acceptOnce [[x31]] [x32]) < Z.of_nat (length [x32]))
    by (left; discriminate).
  split; [exact H1|]. split; [exact H2|]. split; [exact H3|].
  exact (Split_stops_at_first_failure splitter.acceptOnce splitter.sumConcat
           [[x31]] [x32] None [([x33], None); ([], Some io_EOF)] 3 H1 H2 H3).
Defined.
